(** * prompter: a shallow embedding of [prompter.go] and its specification

    The package asks a question on the terminal, reads an answer, checks it
    against a rule and asks again until the answer is accepted.

    Layout of this development:
    - [strconv], [strings], [regexp]: the parts of the Go standard library
      the package calls, modelled from their documented behaviour.  A Go
      [string] is a sequence of bytes, here a [string] of [ascii].  The
      regexp model refuses a pattern that is not valid UTF-8, as Go does;
      it then reads one byte as one character and folds case on the ASCII
      letters, where Go decodes UTF-8 and folds by the Unicode tables, and
      both agree on ASCII text.  [int] is the 64-bit one.
    - [Prompter] and its methods, function by function as in the source.
      The receiver is a pointer whose [reg] field is written by [regexp];
      methods that may write it return the updated record.
    - the terminal, the environment and the two streams as a [World] that
      is threaded through [Prompt].
    - the properties. *)

From Stdlib Require Import ZArith List String Ascii Bool Lia DecimalString.
From Stdlib Require DecimalPos.
Import ListNotations.
Open Scope string_scope.

(** ** Bytes *)

Definition LF : ascii := "010"%char.
Definition CR : ascii := "013"%char.
Definition ESC : ascii := "027"%char.

Definition byte_le (a b : ascii) : bool := (N_of_ascii a <=? N_of_ascii b)%N.

Definition within (lo hi c : ascii) : bool := byte_le lo c && byte_le c hi.

Definition isDigit (c : ascii) : bool := within "0" "9" c.

Definition isAlnum (c : ascii) : bool :=
  isDigit c || within "A" "Z" c || within "a" "z" c.

Definition toLower (c : ascii) : ascii :=
  if within "A" "Z" c then ascii_of_N (N_of_ascii c + 32) else c.

Definition toUpper (c : ascii) : ascii :=
  if within "a" "z" c then ascii_of_N (N_of_ascii c - 32) else c.

(** A byte below [utf8.RuneSelf]. *)
Definition isASCII (c : ascii) : bool := (N_of_ascii c <? 128)%N.

Fixpoint ascii_text (s : string) : bool :=
  match s with
  | EmptyString => true
  | String c s' => isASCII c && ascii_text s'
  end.

(** ** Outcomes of a call: a value, a panic, or no answer within the fuel *)

Inductive Outcome (A : Type) : Type :=
| Returns (a : A)
| Panics
| OutOfFuel.

Arguments Returns {A} a.
Arguments Panics {A}.
Arguments OutOfFuel {A}.

Definition bind {A B} (m : Outcome A) (f : A -> Outcome B) : Outcome B :=
  match m with
  | Returns a => f a
  | Panics => Panics
  | OutOfFuel => OutOfFuel
  end.

Notation "x <- m ;; k" := (bind m (fun x => k))
  (at level 61, m at next level, right associativity).
Notation "' pat <- m ;; k" := (bind m (fun x => match x with pat => k end))
  (at level 61, pat pattern, m at next level, right associativity).

(** ** package strconv *)

Module strconv.

Local Open Scope Z_scope.

(** [strconv.Itoa]: decimal digits, a leading [-] for a negative number. *)
Definition Itoa (i : Z) : string := NilZero.string_of_int (Z.to_int i).

Definition digitVal (c : ascii) : Z := Z.of_N (N_of_ascii c) - 48.

(** The digit loop of [Atoi]: [n = n*10 + int(ch)], a syntax error at the
    first byte that is no digit. *)
Fixpoint digits (s : string) (n : Z) : option Z :=
  match s with
  | EmptyString => Some n
  | String ch s' => if isDigit ch then digits s' (n * 10 + digitVal ch) else None
  end.

Definition minInt : Z := - 2 ^ 63.
Definition maxInt : Z := 2 ^ 63 - 1.

(** [strconv.Atoi]: an optional sign, then one digit or more, base 10, no
    underscores; [None] stands for a non-nil [error] (syntax or range). *)
Definition Atoi (s : string) : option Z :=
  match s with
  | EmptyString => None
  | String s0 rest =>
      let body := if (s0 =? "-")%char || (s0 =? "+")%char then rest else s in
      match body with
      | EmptyString => None
      | _ =>
          match digits body 0 with
          | None => None
          | Some n =>
              let n := if (s0 =? "-")%char then - n else n in
              if (minInt <=? n) && (n <=? maxInt) then Some n else None
          end
      end
  end.

End strconv.

(** ** package strings *)

Module strings.

(** [strings.Join(elems, sep)] *)
Fixpoint Join (elems : list string) (sep : string) : string :=
  match elems with
  | [] => ""
  | [e] => e
  | e :: rest => e ++ sep ++ Join rest sep
  end.

Fixpoint contains (cutset : string) (c : ascii) : bool :=
  match cutset with
  | EmptyString => false
  | String x cutset' => (x =? c)%char || contains cutset' c
  end.

(** [strings.TrimRight(s, cutset)]: [s] without its longest suffix made of
    bytes of [cutset]. *)
Fixpoint TrimRight (s cutset : string) : string :=
  match s with
  | EmptyString => ""
  | String c s' =>
      match TrimRight s' cutset with
      | EmptyString => if contains cutset c then "" else String c ""
      | t => String c t
      end
  end.

End strings.

(** ** package unicode/utf8 *)

Module utf8.

Local Open Scope N_scope.

Definition inRange (lo hi : N) (b : ascii) : bool :=
  (lo <=? N_of_ascii b) && (N_of_ascii b <=? hi).

(** The table [first] with [acceptRanges]: the size of the encoding that
    a first byte announces and the range its second byte must lie in;
    [None] for a byte that starts no encoding. *)
Definition first (b : ascii) : option (nat * (N * N)) :=
  let x := N_of_ascii b in
  if x <? 128 then Some (1%nat, (0, 0))
  else if x <? 194 then None
  else if x <? 224 then Some (2%nat, (128, 191))
  else if x =? 224 then Some (3%nat, (160, 191))
  else if x =? 237 then Some (3%nat, (128, 159))
  else if x <? 240 then Some (3%nat, (128, 191))
  else if x =? 240 then Some (4%nat, (144, 191))
  else if x <? 244 then Some (4%nat, (128, 191))
  else if x =? 244 then Some (4%nat, (128, 143))
  else None.

(** [utf8.ValidString]: the bytes are encodings of runes, one after the
    other; the bytes after the second are between [0x80] and [0xBF]. *)
Fixpoint ValidString (s : string) : bool :=
  match s with
  | EmptyString => true
  | String b0 s1 =>
      match first b0 with
      | None => false
      | Some (1%nat, _) => ValidString s1
      | Some (2%nat, (lo, hi)) =>
          match s1 with
          | String b1 s2 => inRange lo hi b1 && ValidString s2
          | _ => false
          end
      | Some (3%nat, (lo, hi)) =>
          match s1 with
          | String b1 (String b2 s3) =>
              inRange lo hi b1 && inRange 128 191 b2 && ValidString s3
          | _ => false
          end
      | Some (_, (lo, hi)) =>
          match s1 with
          | String b1 (String b2 (String b3 s4)) =>
              inRange lo hi b1 && inRange 128 191 b2 && inRange 128 191 b3
              && ValidString s4
          | _ => false
          end
      end
  end.

End utf8.

(** ** package regexp

    The fragment of the RE2 syntax that [regexp.Compile] is given by this
    package: literals, escaped punctuation, [.], [^], [$], [\A], [\z],
    bracket classes of bytes and ranges, groups, [(?i)], alternation and
    the repetition operators.  [Compile] answers [None] on a pattern that
    Go refuses, one that is not valid UTF-8 among them, and on one outside
    this fragment; none of the patterns the package builds is outside it.
    The size limits of the Go parser are not modelled. *)

Module regexp.

(** The operators of [regexp/syntax] that the fragment needs. *)
Inductive Syntax : Type :=
| OpEmptyMatch
| OpLiteral (c : ascii) (foldCase : bool)
| OpCharClass (negated foldCase : bool) (ranges : list (ascii * ascii))
| OpAnyCharNotNL
| OpBeginText
| OpEndText
| OpStar (sub : Syntax)
| OpPlus (sub : Syntax)
| OpQuest (sub : Syntax)
| OpRepeat (min : nat) (max : option nat) (sub : Syntax)
| OpConcat (sub1 sub2 : Syntax)
| OpAlternate (sub1 sub2 : Syntax).

(** A compiled expression: its source text, which [String()] and the [%s]
    verb give back, and its syntax tree. *)
Record Regexp : Type := { expr : string; prog : Syntax }.

Definition String_ (re : Regexp) : string := expr re.

(** *** Matching *)

Definition eqRune (foldCase : bool) (c x : ascii) : bool :=
  if foldCase then (toLower c =? toLower x)%char else (c =? x)%char.

Definition inRanges (ranges : list (ascii * ascii)) (x : ascii) : bool :=
  existsb (fun r => within (fst r) (snd r) x) ranges.

Definition inClass (negated foldCase : bool) (ranges : list (ascii * ascii))
    (x : ascii) : bool :=
  xorb negated
    (inRanges ranges x
     || (foldCase && (inRanges ranges (toLower x) || inRanges ranges (toUpper x)))).

(** What is left to match: called with the flag "still at the beginning of
    the text" and the rest of the text. *)
Definition Cont : Type := bool -> string -> bool.

(** [sub] any number of times, then [k]; a round that consumes nothing is
    not repeated, and [n] bounds the rounds by the length of the text. *)
Definition star (step : Cont -> Cont) (k : Cont) : nat -> Cont :=
  fix loop (n : nat) (bot : bool) (s : string) : bool :=
    k bot s
    || match n with
       | O => false
       | S n' =>
           step (fun bot' s' => (length s' <? length s)%nat && loop n' bot' s') bot s
       end.

(** [sub] exactly [n] times, then [k]. *)
Fixpoint times (step : Cont -> Cont) (n : nat) (k : Cont) : Cont :=
  match n with
  | O => k
  | S n' => step (times step n' k)
  end.

(** [sub] at most [n] times, then [k]. *)
Fixpoint upto (step : Cont -> Cont) (n : nat) (k : Cont) : Cont :=
  match n with
  | O => k
  | S n' => fun bot s => k bot s || step (upto step n' k) bot s
  end.

(** [run re k bot s]: some prefix of [s] matches [re] and [k] accepts what
    follows it.  [bot] says that [s] is the whole text. *)
Fixpoint run (re : Syntax) (k : Cont) (bot : bool) (s : string) {struct re} : bool :=
  match re with
  | OpEmptyMatch => k bot s
  | OpLiteral c foldCase =>
      match s with
      | String x s' => eqRune foldCase c x && k false s'
      | EmptyString => false
      end
  | OpCharClass negated foldCase ranges =>
      match s with
      | String x s' => inClass negated foldCase ranges x && k false s'
      | EmptyString => false
      end
  | OpAnyCharNotNL =>
      match s with
      | String x s' => negb (x =? LF)%char && k false s'
      | EmptyString => false
      end
  | OpBeginText => bot && k bot s
  | OpEndText =>
      match s with
      | EmptyString => k bot s
      | String _ _ => false
      end
  | OpStar sub => star (run sub) k (length s) bot s
  | OpPlus sub => run sub (fun bot' s' => star (run sub) k (length s') bot' s') bot s
  | OpQuest sub => k bot s || run sub k bot s
  | OpRepeat min max sub =>
      times (run sub) min
        (match max with
         | None => fun bot' s' => star (run sub) k (length s') bot' s'
         | Some max => upto (run sub) (max - min) k
         end) bot s
  | OpConcat sub1 sub2 => run sub1 (run sub2 k) bot s
  | OpAlternate sub1 sub2 => run sub1 k bot s || run sub2 k bot s
  end.

Definition accept : Cont := fun _ _ => true.

(** A match starting here or further to the right. *)
Fixpoint search (re : Syntax) (bot : bool) (s : string) : bool :=
  run re accept bot s
  || match s with
     | EmptyString => false
     | String _ s' => search re false s'
     end.

(** [Regexp.MatchString]: the text contains a match. *)
Definition MatchString (re : Regexp) (s : string) : bool := search (prog re) true s.

(** *** The meaning of a tree

    What a tree matches, said without a matcher: [den re bot u v] holds
    when [re] matches [u] with [v] after it, [bot] telling whether [u]
    starts the text.  A tree with [max < min], which the parser refuses,
    stands for [min] rounds. *)

(** Still at the beginning of the text after [u]? *)
Definition atStart (bot : bool) (u : string) : bool := bot && (u =? "").

Definition Lang : Type := bool -> string -> string -> Prop.

(** [n] rounds of [d], one after the other. *)
Fixpoint iter (d : Lang) (n : nat) (bot : bool) (u v : string) : Prop :=
  match n with
  | O => u = ""
  | S n' =>
      exists u1 u2, u = u1 ++ u2 /\ d bot u1 (u2 ++ v) /\ iter d n' (atStart bot u1) u2 v
  end.

(** [den re bot u v]: [re] matches [u] when [v] follows it; [bot] says
    that [u] starts the text. *)
Fixpoint den (re : Syntax) : Lang :=
  match re with
  | OpEmptyMatch => fun _ u _ => u = ""
  | OpLiteral c foldCase =>
      fun _ u _ => exists x, u = String x "" /\ eqRune foldCase c x = true
  | OpCharClass negated foldCase ranges =>
      fun _ u _ => exists x, u = String x "" /\ inClass negated foldCase ranges x = true
  | OpAnyCharNotNL => fun _ u _ => exists x, u = String x "" /\ x <> LF
  | OpBeginText => fun bot u _ => u = "" /\ bot = true
  | OpEndText => fun _ u v => u = "" /\ v = ""
  | OpStar sub => fun bot u v => exists n, iter (den sub) n bot u v
  | OpPlus sub => fun bot u v => exists n, iter (den sub) (S n) bot u v
  | OpQuest sub => fun bot u v => u = "" \/ den sub bot u v
  | OpRepeat min max sub =>
      fun bot u v =>
        exists n, min <= n
                  /\ match max with None => True | Some max => n <= Nat.max min max end
                  /\ iter (den sub) n bot u v
  | OpConcat sub1 sub2 =>
      fun bot u v =>
        exists u1 u2, u = u1 ++ u2 /\ den sub1 bot u1 (u2 ++ v)
                      /\ den sub2 (atStart bot u1) u2 v
  | OpAlternate sub1 sub2 => fun bot u v => den sub1 bot u v \/ den sub2 bot u v
  end.

(** [k] accepts what follows some match of [d] at the start of [s]. *)
Definition then_ (d : Lang) (k : Cont) (bot : bool) (s : string) : Prop :=
  exists u v, s = u ++ v /\ d bot u v /\ k (atStart bot u) v = true.

(** *** Parsing

    The parser of [regexp/syntax] reads the pattern from left to right and
    keeps a stack of what it has seen.  Here the stack is kept in layers:
    the pieces of the concatenation being read ([cur], last piece first),
    the finished branches of the alternation it belongs to ([alts], last
    branch first), and one [Frame] per group that is still open. *)

Record Frame : Type :=
  { savedFold : bool; savedCur : list Syntax; savedAlts : list Syntax }.

Record Parser : Type :=
  { flagFold : bool; cur : list Syntax; alts : list Syntax; stack : list Frame }.

Definition newParser : Parser :=
  {| flagFold := false; cur := []; alts := []; stack := [] |}.

(** [p.concat()]: the pieces read so far as one expression. *)
Fixpoint concatOf (pieces : list Syntax) : Syntax :=
  match pieces with
  | [] => OpEmptyMatch
  | [re] => re
  | re :: before => OpConcat (concatOf before) re
  end.

(** [p.alternate()]: the branches read so far as one expression. *)
Fixpoint alternateOf (branches : list Syntax) : Syntax :=
  match branches with
  | [] => OpEmptyMatch
  | [re] => re
  | re :: before => OpAlternate (alternateOf before) re
  end.

Definition collapse (p : Parser) : Syntax :=
  alternateOf (concatOf (cur p) :: alts p).

Definition push (re : Syntax) (p : Parser) : Parser :=
  {| flagFold := flagFold p; cur := re :: cur p; alts := alts p; stack := stack p |}.

Definition literal (c : ascii) (p : Parser) : Parser :=
  push (OpLiteral c (flagFold p)) p.

Definition setFold (b : bool) (p : Parser) : Parser :=
  {| flagFold := b; cur := cur p; alts := alts p; stack := stack p |}.

(** [(]: a new layer; the flags of the moment come back at the [)]. *)
Definition openGroup (p : Parser) : Parser :=
  {| flagFold := flagFold p; cur := []; alts := [];
     stack := {| savedFold := flagFold p; savedCur := cur p; savedAlts := alts p |}
              :: stack p |}.

(** [p.parseVerticalBar()] *)
Definition verticalBar (p : Parser) : Parser :=
  {| flagFold := flagFold p; cur := []; alts := concatOf (cur p) :: alts p;
     stack := stack p |}.

(** [p.parseRightParen()] *)
Definition rightParen (p : Parser) : option Parser :=
  match stack p with
  | [] => None
  | f :: outer =>
      Some {| flagFold := savedFold f; cur := collapse p :: savedCur f;
              alts := savedAlts f; stack := outer |}
  end.

(** [p.parsePerlFlags], on what follows [(?]: the forms [(?:], [(?i)]
    and [(?i:]. *)
Definition parsePerlFlags (t : string) (p : Parser) : option (string * Parser) :=
  match t with
  | String ":" rest => Some (rest, openGroup p)
  | String "i" (String ")" rest) => Some (rest, setFold true p)
  | String "i" (String ":" rest) => Some (rest, setFold true (openGroup p))
  | _ => None
  end.

(** [p.escape], for a backslash before punctuation: the byte itself. *)
Definition escape (afterBackslash : string) : option (ascii * string) :=
  match afterBackslash with
  | EmptyString => None
  | String c rest => if isASCII c && negb (isAlnum c) then Some (c, rest) else None
  end.

(** [p.parseClassChar] *)
Definition parseClassChar (t : string) : option (ascii * string) :=
  match t with
  | EmptyString => None
  | String "\" rest => escape rest
  | String c rest => Some (c, rest)
  end.

(** The loop of [p.parseClass], after [[] and an optional [^]: it ends at
    the first []] that is not the first byte of the class. *)
Fixpoint classLoop (fuel : nat) (t : string) (first : bool)
    (class : list (ascii * ascii)) : option (list (ascii * ascii) * string) :=
  match fuel with
  | O => None
  | S fuel' =>
      match (if first then None
             else match t with String "]" rest => Some rest | _ => None end) with
      | Some rest => Some (rev class, rest)
      | None =>
          match t with
          | String "[" (String ":" _) => None
          | _ =>
              match parseClassChar t with
              | None => None
              | Some (lo, t1) =>
                  match t1 with
                  | String "-" (String "]" _) =>
                      classLoop fuel' t1 false ((lo, lo) :: class)
                  | String "-" (String x t2) =>
                      match parseClassChar (String x t2) with
                      | None => None
                      | Some (hi, t3) =>
                          if byte_le lo hi
                          then classLoop fuel' t3 false ((lo, hi) :: class)
                          else None
                      end
                  | _ => classLoop fuel' t1 false ((lo, lo) :: class)
                  end
              end
          end
      end
  end.

(** [p.parseClass], on what follows [[]. *)
Definition parseClass (t : string) (foldCase : bool) : option (Syntax * string) :=
  let (negated, t) :=
    match t with
    | String "^" rest => (true, rest)
    | _ => (false, t)
    end in
  match classLoop (S (length t)) t true [] with
  | Some (class, rest) => Some (OpCharClass negated foldCase class, rest)
  | None => None
  end.

Local Open Scope Z_scope.

(** The value loop of [p.parseInt]: [-1] once the number passes [1e8]. *)
Fixpoint intValue (t : string) (n : Z) : Z * string :=
  match t with
  | String c t' =>
      if isDigit c then
        if 100000000 <=? n then (-1, snd (intValue t' n))
        else intValue t' (n * 10 + strconv.digitVal c)
      else (n, t)
  | EmptyString => (n, t)
  end.

(** [p.parseInt]: digits without a leading zero. *)
Definition parseInt (s : string) : option (Z * string) :=
  match s with
  | String c rest =>
      if negb (isDigit c) then None
      else if (c =? "0")%char
              && match rest with String d _ => isDigit d | EmptyString => false end
      then None
      else Some (intValue s 0)
  | EmptyString => None
  end.

Definition closeBrace (min max : Z) (s : string) : option (Z * Z * string) :=
  match s with
  | String "}" rest => Some (min, max, rest)
  | _ => None
  end.

(** [p.parseRepeat], on what follows [{]: [n}], [n,}] or [n,m}];
    [max = -1] stands for no upper bound. *)
Definition parseRepeat (s : string) : option (Z * Z * string) :=
  match parseInt s with
  | None => None
  | Some (min, s1) =>
      match s1 with
      | String "," (String "}" rest) => Some (min, -1, rest)
      | String "," s2 =>
          match parseInt s2 with
          | None => None
          | Some (max, s3) => closeBrace (if max <? 0 then -1 else min) max s3
          end
      | _ => closeBrace min min s1
      end
  end.

Local Close Scope Z_scope.

(** [repeatIsValid]: the counts of nested repetitions multiply to at most [n]. *)
Fixpoint repeatIsValid (re : Syntax) (n : nat) : bool :=
  match re with
  | OpRepeat min max sub =>
      let m := match max with None => min | Some max => max end in
      match max with
      | Some O => true
      | _ =>
          if (n <? m)%nat then false
          else repeatIsValid sub (if (0 <? m)%nat then n / m else n)
      end
  | OpStar sub | OpPlus sub | OpQuest sub => repeatIsValid sub n
  | OpConcat sub1 sub2 | OpAlternate sub1 sub2 =>
      repeatIsValid sub1 n && repeatIsValid sub2 n
  | _ => true
  end.

(** A repetition operator may be followed by [?] (prefer fewer rounds),
    which does not change what matches. *)
Definition skipLazy (after : string) : string :=
  match after with
  | String "?" after' => after'
  | _ => after
  end.

(** [p.repeat]: the operator applies to the last piece; none to apply it
    to, or a repetition right before it, is an error. *)
Definition repeat (op : Syntax -> Syntax) (p : Parser) (lastRepeat : bool)
  : option Parser :=
  if lastRepeat then None
  else
    match cur p with
    | [] => None
    | sub :: before =>
        Some {| flagFold := flagFold p; cur := op sub :: before; alts := alts p;
                stack := stack p |}
    end.

(** The size check of [p.repeat] for [{min,max}]. *)
Definition repeatSizeOk (min max : Z) (p : Parser) : bool :=
  if (2 <=? min)%Z || (2 <=? max)%Z then
    match cur p with
    | re :: _ => repeatIsValid re 1000
    | [] => true
    end
  else true.

Definition repeatOp (min max : Z) : option (Syntax -> Syntax) :=
  if (min <? 0)%Z || (1000 <? min)%Z || (1000 <? max)%Z
     || ((0 <=? max)%Z && (max <? min)%Z)
  then None
  else Some (OpRepeat (Z.to_nat min)
               (if (max <? 0)%Z then None else Some (Z.to_nat max))).

(** The loop of [parse]: one token of the pattern per round.  [lastRepeat]
    says that the token before was a repetition operator. *)
Fixpoint parseLoop (fuel : nat) (t : string) (p : Parser) (lastRepeat : bool)
  : option Syntax :=
  match t with
  | EmptyString =>
      match stack p with
      | [] => Some (collapse p)
      | _ :: _ => None
      end
  | String c rest =>
      match fuel with
      | O => None
      | S fuel' =>
          let next t' p' := parseLoop fuel' t' p' false in
          let repeated op after :=
            match repeat op p lastRepeat with
            | Some p' => parseLoop fuel' (skipLazy after) p' true
            | None => None
            end in
          match c with
          | "("%char =>
              match rest with
              | String "?" flags =>
                  match parsePerlFlags flags p with
                  | Some (t', p') => next t' p'
                  | None => None
                  end
              | _ => next rest (openGroup p)
              end
          | "|"%char => next rest (verticalBar p)
          | ")"%char =>
              match rightParen p with
              | Some p' => next rest p'
              | None => None
              end
          | "^"%char => next rest (push OpBeginText p)
          | "$"%char => next rest (push OpEndText p)
          | "."%char => next rest (push OpAnyCharNotNL p)
          | "["%char =>
              match parseClass rest (flagFold p) with
              | Some (re, t') => next t' (push re p)
              | None => None
              end
          | "*"%char => repeated OpStar rest
          | "+"%char => repeated OpPlus rest
          | "?"%char => repeated OpQuest rest
          | "{"%char =>
              match parseRepeat rest with
              | None => next rest (literal "{" p)
              | Some (min, max, after) =>
                  match repeatOp min max with
                  | None => None
                  | Some op =>
                      match repeat op p lastRepeat with
                      | Some p' =>
                          if repeatSizeOk min max p'
                          then parseLoop fuel' (skipLazy after) p' true
                          else None
                      | None => None
                      end
                  end
              end
          | "\"%char =>
              match rest with
              | String "A" t' => next t' (push OpBeginText p)
              | String "z" t' => next t' (push OpEndText p)
              | _ =>
                  match escape rest with
                  | Some (x, t') => next t' (literal x p)
                  | None => None
                  end
              end
          | _ => next rest (literal c p)
          end
      end
  end.

(** [syntax.Parse(s, syntax.Perl)].  The Go parser takes the pattern rune
    by rune and answers [ErrInvalidUTF8] at a byte that starts no encoding
    ([nextRune], [checkUTF8]); here the whole pattern is checked first. *)
Definition parse (s : string) : option Syntax :=
  if utf8.ValidString s then parseLoop (length s) s newParser false else None.

(** [regexp.Compile]; [None] is the error. *)
Definition Compile (expr : string) : option Regexp :=
  match parse expr with
  | Some re => Some {| expr := expr; prog := re |}
  | None => None
  end.

(** [regexp.MustCompile]: [Compile], and a panic on an error. *)
Definition MustCompile (expr : string) : Outcome Regexp :=
  match Compile expr with
  | Some re => Returns re
  | None => Panics
  end.

(** *** [regexp.QuoteMeta] *)

Definition special (b : ascii) : bool := strings.contains "\.+*?()|[]{}^$" b.

Fixpoint QuoteMeta (s : string) : string :=
  match s with
  | EmptyString => ""
  | String b s' =>
      if special b then String "\" (String b (QuoteMeta s')) else String b (QuoteMeta s')
  end.

End regexp.

(** ** The package

    [type Prompter struct].  [Regexp] and [reg] are [*regexp.Regexp],
    [None] for [nil]; a [nil] slice and an empty one are both [[]]. *)

Record Prompter : Type :=
  { Message : string;
    Choices : list string;
    IgnoreCase : bool;
    Default : string;
    DefaultMenuItem : Z;
    Regexp : option regexp.Regexp;
    NoEcho : bool;
    UseDefault : bool;
    IsMenu : bool;
    MenuPrompt : string;
    reg : option regexp.Regexp }.

(** The assignment [p.reg = re]. *)
Definition setReg (re : regexp.Regexp) (p : Prompter) : Prompter :=
  {| Message := Message p; Choices := Choices p; IgnoreCase := IgnoreCase p;
     Default := Default p; DefaultMenuItem := DefaultMenuItem p;
     Regexp := Regexp p; NoEcho := NoEcho p; UseDefault := UseDefault p;
     IsMenu := IsMenu p; MenuPrompt := MenuPrompt p; reg := Some re |}.

(** A line feed as a string, for the ["\n"] of the source. *)
Definition nl : string := String LF "".

(** The lines of the menu: [fmt.Sprintf(" [%d] %s\n", i+1, choice)] for
    each choice, [i] counting from [0]. *)
Fixpoint menuLines (i : Z) (choices : list string) : string :=
  match choices with
  | [] => ""
  | choice :: rest =>
      " [" ++ strconv.Itoa (i + 1) ++ "] " ++ choice ++ nl ++ menuLines (i + 1) rest
  end.

Definition msg (p : Prompter) : string :=
  if IsMenu p then
    let msg := Message p ++ nl in
    let msg := msg ++ "---" ++ nl in
    let msg := msg ++ menuLines 0 (Choices p) in
    let msg := if MenuPrompt p =? "" then msg ++ "Choose" else msg ++ MenuPrompt p in
    let msg :=
      if (DefaultMenuItem p =? 0)%Z then msg
      else msg ++ " [" ++ strconv.Itoa (DefaultMenuItem p) ++ "]" in
    msg ++ ": "
  else
    let msg := Message p in
    let msg :=
      match Choices p with
      | [] => msg
      | _ :: _ => msg ++ " (" ++ strings.Join (Choices p) "/" ++ ")"
      end in
    let msg := if Default p =? "" then msg else msg ++ " [" ++ Default p ++ "]" in
    msg ++ ": ".

Definition errorMsg (p : Prompter) : string :=
  match Regexp p with
  | Some re => "# Answer should match /" ++ regexp.String_ re ++ "/"
  | None =>
      match Choices p with
      | [] => ""
      | _ :: _ =>
          if negb (IsMenu p) then
            match Choices p with
            | [only] => "# Enter `" ++ only ++ "`"
            | _ =>
                let choices := map (fun v => "`" ++ v ++ "`") (removelast (Choices p)) in
                "# Enter " ++ strings.Join choices ", " ++ " or `"
                  ++ last (Choices p) "" ++ "`"
            end
          else ""
      end
  end.

Definition allReg : regexp.Regexp :=
  {| regexp.expr := ".*"; regexp.prog := regexp.OpStar regexp.OpAnyCharNotNL |}.

Definition digitClass (lo : ascii) : regexp.Syntax :=
  regexp.OpCharClass false false [(lo, "9"%char)].

Definition numReg : regexp.Regexp :=
  {| regexp.expr := "[0-9]{2,}|[1-9]{1}";
     regexp.prog :=
       regexp.OpAlternate (regexp.OpRepeat 2 None (digitClass "0"))
         (regexp.OpRepeat 1 (Some 1) (digitClass "1")) |}.

(** The pattern built for a list of choices:
    [fmt.Sprintf(`%s\A(?:%s)\z`, ignoreReg, strings.Join(choices, "|"))]. *)
Definition choicesExpr (ignoreCase : bool) (choices : list string) : string :=
  let choices := map regexp.QuoteMeta choices in
  let ignoreReg := if ignoreCase then "(?i)" else "" in
  ignoreReg ++ "\A(?:" ++ strings.Join choices "|" ++ ")\z".

(** [func (p *Prompter) regexp() *regexp.Regexp]: the rule and the receiver
    after the call. *)
Definition regexp (p : Prompter) : Outcome (regexp.Regexp * Prompter) :=
  match Regexp p with
  | Some re => Returns (re, p)
  | None =>
      match reg p with
      | Some re => Returns (re, p)
      | None =>
          match Choices p with
          | [] => Returns (allReg, setReg allReg p)
          | _ :: _ =>
              if IsMenu p then Returns (numReg, setReg numReg p)
              else
                re <- regexp.MustCompile (choicesExpr (IgnoreCase p) (Choices p)) ;;
                Returns (re, setReg re p)
          end
      end
  end.

Definition inputIsValid (p : Prompter) (input : string) : Outcome (bool * Prompter) :=
  '(re, p) <- regexp p ;;
  let rx := regexp.MatchString re input in
  if negb (IsMenu p) || negb rx then Returns (rx, p)
  else
    match strconv.Atoi input with
    | None => Returns (false, p)
    | Some it =>
        if (Z.of_nat (List.length (Choices p)) + 1 <? it)%Z then Returns (false, p)
        else Returns (true, p)
    end.

(** ** The process around the package *)

Inductive Event : Type :=
| Stdout (text : string)      (* [fmt.Print], [fmt.Println] *)
| Stderr (text : string)      (* the builtin [print] *)
| ScanLine                    (* [scanner.Scan()] on [os.Stdin] *)
| ReadPassword.               (* [terminal.ReadPassword] on [os.Stdin] *)

(** [pending] holds the outcome of each read of standard input still to
    come: [Some text], or [None] for a read that fails or finds the end of
    the input; once the list is used up every read fails.  [trace] is what
    the process has done so far, oldest first. *)
Record World : Type :=
  { GO_PROMPTER_USE_DEFAULT : string;
    stdinIsTerminal : bool;
    stdoutIsTerminal : bool;
    pending : list (option string);
    trace : list Event }.

Definition emit (e : Event) (w : World) : World :=
  {| GO_PROMPTER_USE_DEFAULT := GO_PROMPTER_USE_DEFAULT w;
     stdinIsTerminal := stdinIsTerminal w;
     stdoutIsTerminal := stdoutIsTerminal w;
     pending := pending w;
     trace := trace w ++ [e] |}.

(** One read of standard input, recorded as [e]. *)
Definition read (e : Event) (w : World) : option string * World :=
  let w' :=
    {| GO_PROMPTER_USE_DEFAULT := GO_PROMPTER_USE_DEFAULT w;
       stdinIsTerminal := stdinIsTerminal w;
       stdoutIsTerminal := stdoutIsTerminal w;
       pending := tl (pending w);
       trace := trace w ++ [e] |} in
  match pending w with
  | Some text :: _ => (Some text, w')
  | _ => (None, w')
  end.

Definition skip (w : World) : bool :=
  if negb (GO_PROMPTER_USE_DEFAULT w =? "") then true
  else negb (stdinIsTerminal w) || negb (stdoutIsTerminal w).

(** The terminal-clear sequence ["\033[H\033[2J"]. *)
Definition clearScreen : string :=
  String ESC "[H" ++ String ESC "[2J".

(** Lines 43-56 of the source: the answer as typed. *)
Definition readInput (p : Prompter) (w : World) : string * World :=
  if NoEcho p then
    let (b, w) := read ReadPassword w in
    let input := match b with Some b => b | None => "" end in
    (input, emit (Stdout nl) w)
  else
    let (ok, w) := read ScanLine w in
    let input :=
      match ok with
      | Some text => strings.TrimRight text (String CR (String LF ""))
      | None => ""
      end in
    (input, w).

(** Lines 57-63 of the source: what stands for an empty answer. *)
Definition orDefault (p : Prompter) (input : string) : string :=
  if input =? "" then
    if IsMenu p then strconv.Itoa (DefaultMenuItem p) else Default p
  else input.

(** Lines 65-68 of the source: the error message, and in a menu the
    terminal-clear sequence, which the builtin [print] writes. *)
Definition afterError (p : Prompter) (w : World) : World :=
  let w := emit (Stdout (errorMsg p ++ nl)) w in
  if IsMenu p then emit (Stderr clearScreen) w else w.

(** Lines 64-71 of the source: [input] is checked, then returned or asked
    for again; [again] is the call of [Prompt] at line 69. *)
Definition checked (again : Prompter -> World -> Outcome (string * Prompter * World))
    (p : Prompter) (w : World) (input : string)
  : Outcome (string * Prompter * World) :=
  '(valid, p) <- inputIsValid p input ;;
  if negb valid then again p (afterError p w) else Returns (input, p, w).

(** [func (p *Prompter) Prompt() string].  Each retry is a call of
    [Prompt] inside [Prompt]; [fuel] bounds how many are followed. *)
Fixpoint Prompt (fuel : nat) (p : Prompter) (w : World)
  : Outcome (string * Prompter * World) :=
  match fuel with
  | O => OutOfFuel
  | S fuel' =>
      let w := emit (Stdout (msg p)) w in
      if UseDefault p || skip w then Returns (Default p, p, w)
      else
        let (input, w) := readInput p w in
        checked (Prompt fuel') p w (orDefault p input)
  end.

(** ** Notions used by the properties *)

(** The receiver as a caller builds it: [reg] is not exported, so it is
    [nil] until [regexp] writes it. *)
Definition fresh (p : Prompter) : Prompter :=
  {| Message := Message p; Choices := Choices p; IgnoreCase := IgnoreCase p;
     Default := Default p; DefaultMenuItem := DefaultMenuItem p;
     Regexp := Regexp p; NoEcho := NoEcho p; UseDefault := UseDefault p;
     IsMenu := IsMenu p; MenuPrompt := MenuPrompt p; reg := None |}.

(** The rule held in [reg], if any, is the one [regexp] derives from the
    other fields: the fields have not been changed since it was stored. *)
Definition cacheOk (p : Prompter) : Prop :=
  match reg p with
  | None => True
  | Some re => exists p', regexp (fresh p) = Returns (re, p')
  end.

(** A process on a terminal, with no override in its environment, and the
    reads of standard input that are to come. *)
Definition terminal (reads : list (option string)) : World :=
  {| GO_PROMPTER_USE_DEFAULT := ""; stdinIsTerminal := true;
     stdoutIsTerminal := true; pending := reads; trace := [] |}.

(** A terminal whose standard output goes to a file or a pipe. *)
Definition redirected (reads : list (option string)) : World :=
  {| GO_PROMPTER_USE_DEFAULT := ""; stdinIsTerminal := true;
     stdoutIsTerminal := false; pending := reads; trace := [] |}.

(** A terminal with the override variable set to [value]. *)
Definition overridden (value : string) (reads : list (option string)) : World :=
  {| GO_PROMPTER_USE_DEFAULT := value; stdinIsTerminal := true;
     stdoutIsTerminal := true; pending := reads; trace := [] |}.

(** The answer typed at a prompt that asks for one, and the world once it
    is read. *)
Definition typed (p : Prompter) (w : World) : string :=
  fst (readInput p (emit (Stdout (msg p)) w)).

Definition asked (p : Prompter) (w : World) : World :=
  snd (readInput p (emit (Stdout (msg p)) w)).

Definition events (w : World) : nat := List.length (trace w).

(** The parser after the literal bytes of [text]. *)
Fixpoint pushText (text : string) (p : regexp.Parser) : regexp.Parser :=
  match text with
  | EmptyString => p
  | String b text' => pushText text' (regexp.literal b p)
  end.

(** The parser after [first|second|...], each read as literal bytes. *)
Fixpoint pushChoices (first : string) (others : list string) (p : regexp.Parser)
  : regexp.Parser :=
  match others with
  | [] => pushText first p
  | second :: others' =>
      pushChoices second others' (regexp.verticalBar (pushText first p))
  end.

Fixpoint literals (foldCase : bool) (text : string) : list regexp.Syntax :=
  match text with
  | EmptyString => []
  | String b text' => regexp.OpLiteral b foldCase :: literals foldCase text'
  end.

(** The tree of one choice: its bytes, one literal after the other. *)
Definition branch (foldCase : bool) (text : string) : regexp.Syntax :=
  regexp.concatOf (rev (literals foldCase text)).

(** The tree of [choicesExpr]. *)
Definition choicesSyntax (ignoreCase : bool) (choices : list string) : regexp.Syntax :=
  regexp.OpConcat
    (regexp.OpConcat regexp.OpBeginText
       (regexp.alternateOf (rev (map (branch ignoreCase) choices))))
    regexp.OpEndText.

Definition choicesReg (ignoreCase : bool) (choices : list string) : regexp.Regexp :=
  {| regexp.expr := choicesExpr ignoreCase choices;
     regexp.prog := choicesSyntax ignoreCase choices |}.

(** [text] at the start of [s], byte for byte, then [k]. *)
Fixpoint matchText (foldCase : bool) (text : string) (k : regexp.Cont)
    (bot : bool) (s : string) : bool :=
  match text with
  | EmptyString => k bot s
  | String c text' =>
      match s with
      | String x s' => regexp.eqRune foldCase c x && matchText foldCase text' k false s'
      | EmptyString => false
      end
  end.

(** [s] is [text], byte for byte. *)
Fixpoint sameText (foldCase : bool) (text s : string) : bool :=
  match text, s with
  | EmptyString, EmptyString => true
  | String c text', String x s' => regexp.eqRune foldCase c x && sameText foldCase text' s'
  | _, _ => false
  end.

(** [s] holds a digit from 1 to 9, or two digits in a row. *)
Fixpoint hasIndexToken (s : string) : bool :=
  match s with
  | EmptyString => false
  | String x s' =>
      (isDigit x && match s' with String y _ => isDigit y | EmptyString => false end)
      || within "1" "9" x
      || hasIndexToken s'
  end.

(** *** The specification's words *)

Fixpoint ToLower (s : string) : string :=
  match s with
  | EmptyString => ""
  | String c s' => String (toLower c) (ToLower s')
  end.

(** "The whole input equals the choice literally, comparing
    case-insensitively when ignoreCase is set." *)
Definition equalsChoice (ignoreCase : bool) (input choice : string) : bool :=
  if ignoreCase then ToLower choice =? ToLower input else choice =? input.

(** What [inputIsValid] checks in a menu under the numeric rule: [numReg]
    finds a match, the input parses as an integer, and that integer is at
    most [len(p.Choices) + 1]. *)
Definition menuAccepts (p : Prompter) (input : string) : bool :=
  regexp.MatchString numReg input
  && match strconv.Atoi input with
     | Some index => (index <=? Z.of_nat (List.length (Choices p)) + 1)%Z
     | None => false
     end.

(** "A 1-based index string: the canonical decimal representation of an
    integer between 1 and the bound." *)
Definition isIndexString (bound : nat) (s : string) : bool :=
  existsb (fun index => strconv.Itoa (Z.of_nat index) =? s) (seq 1 bound).

(** The auto-accept condition as the specification words it: "useDefault
    is set, or the override variable is non-empty, or neither stdin nor
    stdout is an interactive terminal". *)
Definition autoAcceptAsWorded (p : Prompter) (w : World) : bool :=
  UseDefault p
  || negb (GO_PROMPTER_USE_DEFAULT w =? "")
  || (negb (stdinIsTerminal w) && negb (stdoutIsTerminal w)).

(** The same with "stdin or stdout is not an interactive terminal". *)
Definition autoAccept (p : Prompter) (w : World) : bool :=
  UseDefault p
  || negb (GO_PROMPTER_USE_DEFAULT w =? "")
  || negb (stdinIsTerminal w)
  || negb (stdoutIsTerminal w).

(** "The choices backquoted, all but the last joined by a comma and a
    space, the last joined with or." *)
Fixpoint enumerated (choices : list string) : string :=
  match choices with
  | [] => ""
  | [only] => "`" ++ only ++ "`"
  | [c; last] => "`" ++ c ++ "` or `" ++ last ++ "`"
  | c :: rest => "`" ++ c ++ "`, " ++ enumerated rest
  end.

Definition errorText (p : Prompter) : string :=
  match Regexp p with
  | Some re => "# Answer should match /" ++ regexp.expr re ++ "/"
  | None =>
      if IsMenu p then ""
      else
        match Choices p with
        | [] => ""
        | _ :: _ => "# Enter " ++ enumerated (Choices p)
        end
  end.

(** *** Prompters of the examples *)

Definition plain : Prompter :=
  {| Message := "Name"; Choices := []; IgnoreCase := false; Default := "";
     DefaultMenuItem := 0; Regexp := None; NoEcho := false; UseDefault := false;
     IsMenu := false; MenuPrompt := ""; reg := None |}.

Definition menu (choices : list string) (defaultMenuItem : Z) : Prompter :=
  {| Message := "Pick one"; Choices := choices; IgnoreCase := false; Default := "";
     DefaultMenuItem := defaultMenuItem; Regexp := None; NoEcho := false;
     UseDefault := false; IsMenu := true; MenuPrompt := ""; reg := None |}.

Definition abcMenu : Prompter := menu ["a"; "b"; "c"] 2.

Definition choose (choices : list string) (ignoreCase : bool) (default : string)
    (useDefault : bool) : Prompter :=
  {| Message := "Continue"; Choices := choices; IgnoreCase := ignoreCase;
     Default := default; DefaultMenuItem := 0; Regexp := None; NoEcho := false;
     UseDefault := useDefault; IsMenu := false; MenuPrompt := ""; reg := None |}.

Definition withRegexp (re : regexp.Regexp) (p : Prompter) : Prompter :=
  {| Message := Message p; Choices := Choices p; IgnoreCase := IgnoreCase p;
     Default := Default p; DefaultMenuItem := DefaultMenuItem p;
     Regexp := Some re; NoEcho := NoEcho p; UseDefault := UseDefault p;
     IsMenu := IsMenu p; MenuPrompt := MenuPrompt p; reg := reg p |}.

(** ** Notions used by the further properties *)

(** Digits only. *)
Fixpoint allDigits (s : string) : bool :=
  match s with
  | EmptyString => true
  | String c s' => isDigit c && allDigits s'
  end.

Definition zeroText (s : string) : bool := (s =? "0") || (s =? "+0") || (s =? "-0").



(** What [inputIsValid] comes to in a menu that uses the numeric rule. *)
Definition menuVerdict (p : Prompter) (input : string) : bool :=
  match strconv.Atoi input with
  | Some index =>
      (index <=? Z.of_nat (List.length (Choices p)) + 1)%Z && negb (zeroText input)
  | None => false
  end.

(** The answer that one read of standard input stands for, lines 43-56 of
    the source: nothing for a read that fails, the bytes as they are
    without echo, the scanned text without its line end with echo. *)
Definition lineOf (p : Prompter) (r : option string) : string :=
  match r with
  | None => ""
  | Some text =>
      if NoEcho p then text else strings.TrimRight text (String CR (String LF ""))
  end.

(** The verdict of [inputIsValid], if it gives one. *)
Definition verdict (p : Prompter) (input : string) : option bool :=
  match inputIsValid p input with
  | Returns (valid, _) => Some valid
  | _ => None
  end.

(** What one round does before the answer is checked: the message and
    the read, and the line feed of line 49 without echo. *)
Definition attempt (p : Prompter) : list Event :=
  Stdout (msg p) :: (if NoEcho p then [ReadPassword; Stdout nl] else [ScanLine]).

(** What follows a rejected answer, lines 65-68. *)
Definition complaint (p : Prompter) : list Event :=
  Stdout (errorMsg p ++ nl) :: (if IsMenu p then [Stderr clearScreen] else []).

(** [k] rounds that end in a rejection. *)
Fixpoint rounds (k : nat) (p : Prompter) : list Event :=
  match k with
  | O => []
  | S k' => attempt p ++ complaint p ++ rounds k' p
  end.

(** The world once the process has done [events] and taken [reads]
    reads from the front of the input. *)
Definition after (events : list Event) (reads : nat) (w : World) : World :=
  {| GO_PROMPTER_USE_DEFAULT := GO_PROMPTER_USE_DEFAULT w;
     stdinIsTerminal := stdinIsTerminal w;
     stdoutIsTerminal := stdoutIsTerminal w;
     pending := skipn reads (pending w);
     trace := trace w ++ events |}.

(** Every byte of [s] is in [cutset]; [s] ends with a byte of [cutset]. *)
Fixpoint allIn (cutset s : string) : bool :=
  match s with
  | EmptyString => true
  | String c s' => strings.contains cutset c && allIn cutset s'
  end.

Fixpoint endsIn (cutset s : string) : bool :=
  match s with
  | EmptyString => false
  | String c EmptyString => strings.contains cutset c
  | String _ s' => endsIn cutset s'
  end.

Definition crlf : string := String CR (String LF "").

(** One line of the menu, as [Sprintf] writes it. *)
Definition menuLine (index : Z) (choice : string) : string :=
  " [" ++ strconv.Itoa index ++ "] " ++ choice ++ nl.

(** More prompters of the examples, before and after the first call. *)
Definition yesNo : Prompter := choose ["y"; "n"] false "" false.
Definition yesNoRule : Prompter := setReg (choicesReg false ["y"; "n"]) yesNo.
Definition abcRule : Prompter := setReg numReg abcMenu.
Definition symbols : Prompter := choose ["a.c"; "x|y"; "(("; "[^"] false "" false.


(** * Properties *)

(** ** Strings *)

Lemma append_assoc (a b c : string) : (a ++ b) ++ c = a ++ (b ++ c).
Proof. induction a as [|x a IH]; cbn; [reflexivity | now rewrite IH]. Qed.

Lemma length_append (a b : string) : length (a ++ b) = length a + length b.
Proof. induction a as [|x a IH]; cbn; [reflexivity | now rewrite IH]. Qed.

Lemma ascii_text_append (a b : string) :
  ascii_text (a ++ b) = ascii_text a && ascii_text b.
Proof.
  induction a as [|x a IH]; cbn; [reflexivity | now rewrite IH, andb_assoc].
Qed.

Lemma ascii_text_Join sep : forall elems,
  ascii_text sep = true -> forallb ascii_text elems = true ->
  ascii_text (strings.Join elems sep) = true.
Proof.
  intros elems Hsep. induction elems as [|e rest IH]; [reflexivity|].
  cbn [forallb]. intros [He Hrest]%andb_true_iff.
  destruct rest as [|e' rest]; [exact He|].
  change (strings.Join (e :: e' :: rest) sep)
    with (e ++ sep ++ strings.Join (e' :: rest) sep).
  now rewrite !ascii_text_append, He, Hsep, IH.
Qed.

(** ASCII text is valid UTF-8: every byte is an encoding of its own. *)
Lemma ascii_text_valid s : ascii_text s = true -> utf8.ValidString s = true.
Proof.
  induction s as [|c s IH]; [reflexivity|].
  cbn [ascii_text utf8.ValidString]. intros [Hc Hs]%andb_true_iff.
  unfold utf8.first. unfold isASCII in Hc. rewrite Hc. auto.
Qed.

(** ** The regexp package on the patterns of this package *)

Module RegexpFacts.

Import regexp.

(** *** The matcher and the meaning of a tree *)

Lemma atStart_empty bot : atStart bot "" = bot.
Proof. unfold atStart. apply andb_true_r. Qed.

Lemma atStart_byte bot x u : atStart bot (String x u) = false.
Proof. unfold atStart. apply andb_false_r. Qed.

Lemma atStart_append bot u1 u2 : atStart (atStart bot u1) u2 = atStart bot (u1 ++ u2).
Proof.
  destruct u1; cbn [append].
  - now rewrite atStart_empty.
  - rewrite !atStart_byte. reflexivity.
Qed.

Section Rounds.

Variable sub : Syntax.
Hypothesis run_sub : forall k bot s, run sub k bot s = true <-> then_ (den sub) k bot s.

Lemma times_den n : forall k bot s,
  times (run sub) n k bot s = true <-> then_ (iter (den sub) n) k bot s.
Proof.
  induction n as [|n IH]; intros k bot s; cbn [times].
  - unfold then_. cbn [iter]. split.
    + intros H. exists "", s. now rewrite atStart_empty.
    + intros (u & v & -> & -> & H). now rewrite atStart_empty in H.
  - rewrite run_sub. unfold then_ at 1. split.
    + intros (u1 & v1 & -> & H1 & H). apply IH in H as (u2 & v & -> & H2 & H).
      exists (u1 ++ u2), v. rewrite append_assoc. split; [reflexivity|].
      split; [|now rewrite <- atStart_append].
      exists u1, u2. auto.
    + intros (u & v & -> & (u1 & u2 & -> & H1 & H2) & H).
      exists u1, (u2 ++ v). rewrite append_assoc. split; [reflexivity|].
      split; [exact H1|]. apply IH. exists u2, v. split; [reflexivity|].
      split; [exact H2|]. now rewrite atStart_append.
Qed.

Lemma upto_den n : forall k bot s,
  upto (run sub) n k bot s = true
  <-> exists j, j <= n /\ then_ (iter (den sub) j) k bot s.
Proof.
  induction n as [|n IH]; intros k bot s; cbn [upto].
  - split.
    + intros H. exists 0. split; [lia|]. now apply (times_den 0).
    + intros (j & Hj & H). replace j with 0 in H by lia.
      now apply (times_den 0) in H.
  - rewrite orb_true_iff, run_sub. split.
    + intros [H | (u1 & v1 & -> & H1 & H)].
      * exists 0. split; [lia|]. now apply (times_den 0).
      * apply IH in H as (j & Hj & H). exists (S j). split; [lia|].
        apply (times_den (S j)). cbn [times]. apply run_sub.
        exists u1, v1. split; [reflexivity|]. split; [exact H1|]. now apply times_den.
    + intros ([|j] & Hj & H).
      * left. now apply (times_den 0) in H.
      * right. apply (times_den (S j)) in H. cbn [times] in H.
        apply run_sub in H as (u1 & v1 & -> & H1 & H).
        exists u1, v1. split; [reflexivity|]. split; [exact H1|].
        apply IH. exists j. split; [lia|]. now apply times_den.
Qed.

Lemma star_unfold k fuel bot s :
  star (run sub) k fuel bot s =
  k bot s
  || match fuel with
     | O => false
     | S fuel' =>
         run sub (fun bot' s' => (length s' <? length s)%nat
                                 && star (run sub) k fuel' bot' s') bot s
     end.
Proof. destruct fuel; reflexivity. Qed.

Lemma star_sound k fuel : forall bot s,
  star (run sub) k fuel bot s = true ->
  exists n, then_ (iter (den sub) n) k bot s.
Proof.
  induction fuel as [|fuel IH]; intros bot s; rewrite star_unfold, orb_true_iff.
  - intros [H | H]; [|discriminate H]. exists 0. now apply (times_den 0).
  - intros [H | H]; [exists 0; now apply (times_den 0)|].
    apply run_sub in H as (u1 & v1 & -> & H1 & H).
    apply andb_true_iff in H as [_ H]. apply IH in H as (n & H).
    exists (S n). apply (times_den (S n)). cbn [times]. apply run_sub.
    exists u1, v1. split; [reflexivity|]. split; [exact H1|]. now apply times_den.
Qed.

(** A round that takes nothing can be left out, so the rounds that are
    run all shorten the text and [length s] of them are enough. *)
Lemma star_complete k n : forall fuel bot s,
  length s <= fuel ->
  then_ (iter (den sub) n) k bot s ->
  star (run sub) k fuel bot s = true.
Proof.
  induction n as [|n IH]; intros fuel bot s Hfuel H; rewrite star_unfold, orb_true_iff.
  - left. now apply (times_den 0) in H.
  - destruct H as (u & v & -> & (u1 & u2 & -> & H1 & H2) & H).
    destruct u1 as [|x u1].
    + rewrite atStart_empty in H2. cbn [append] in *.
      rewrite <- orb_true_iff, <- star_unfold. apply IH; [exact Hfuel|].
      exists u2, v. auto.
    + right. destruct fuel as [|fuel]; [cbn in Hfuel; lia|].
      apply run_sub. exists (String x u1), (u2 ++ v).
      rewrite append_assoc. split; [reflexivity|]. split; [exact H1|].
      cbn [append length] in *. rewrite !length_append in *.
      apply andb_true_iff. split; [apply Nat.ltb_lt; lia|].
      apply IH; [rewrite length_append; lia|].
      exists u2, v. split; [reflexivity|]. split; [exact H2|].
      now rewrite atStart_append.
Qed.

Lemma star_den k bot s :
  star (run sub) k (length s) bot s = true
  <-> exists n, then_ (iter (den sub) n) k bot s.
Proof.
  split; [apply star_sound|].
  intros (n & H). now apply (star_complete k n).
Qed.

End Rounds.

(** Rounds after rounds. *)
Lemma iter_add d n m : forall bot u1 u2 v,
  iter d n bot u1 (u2 ++ v) -> iter d m (atStart bot u1) u2 v ->
  iter d (n + m) bot (u1 ++ u2) v.
Proof.
  induction n as [|n IH]; intros bot u1 u2 v H1 H2; cbn [iter Nat.add] in *.
  - subst u1. now rewrite atStart_empty in H2.
  - destruct H1 as (a & b & -> & Ha & Hb).
    exists a, (b ++ u2). rewrite !append_assoc. split; [reflexivity|].
    split; [exact Ha|].
    apply IH; [exact Hb | now rewrite atStart_append].
Qed.

Lemma iter_split d n m : forall bot u v,
  iter d (n + m) bot u v ->
  exists u1 u2, u = u1 ++ u2 /\ iter d n bot u1 (u2 ++ v)
                /\ iter d m (atStart bot u1) u2 v.
Proof.
  induction n as [|n IH]; intros bot u v H; cbn [iter Nat.add] in *.
  - exists "", u. now rewrite atStart_empty.
  - destruct H as (a & b & -> & Ha & Hb).
    apply IH in Hb as (b1 & b2 & -> & Hb1 & Hb2).
    exists (a ++ b1), b2. rewrite !append_assoc. split; [reflexivity|].
    split; [|now rewrite <- atStart_append].
    exists a, b1. rewrite <- append_assoc. auto.
Qed.


Lemma then_rounds d n m k bot s :
  (exists u1 v1, s = u1 ++ v1 /\ iter d n bot u1 v1
                 /\ then_ (iter d m) k (atStart bot u1) v1)
  <-> then_ (iter d (n + m)) k bot s.
Proof.
  split.
  - intros (u1 & v1 & -> & H1 & (u2 & v & -> & H2 & H)).
    exists (u1 ++ u2), v. rewrite append_assoc. split; [reflexivity|].
    split; [now apply iter_add | now rewrite <- atStart_append].
  - intros (u & v & -> & Hu & H).
    apply iter_split in Hu as (u1 & u2 & -> & H1 & H2).
    exists u1, (u2 ++ v). rewrite append_assoc. split; [reflexivity|].
    split; [exact H1|]. exists u2, v. split; [reflexivity|].
    split; [exact H2 | now rewrite atStart_append].
Qed.

(** A tree that takes one byte, the bytes that pass [test]. *)
Lemma byte_then (test : ascii -> bool) (d : Lang) k bot s :
  (forall bot u v, d bot u v <-> exists x, u = String x "" /\ test x = true) ->
  match s with
  | String x s' => test x && k false s'
  | EmptyString => false
  end = true
  <-> then_ d k bot s.
Proof.
  intros Hd. unfold then_. split.
  - destruct s as [|x s]; [discriminate|]. intros H.
    apply andb_true_iff in H as [Hx H].
    exists (String x ""), s. rewrite atStart_byte, Hd. eauto.
  - intros (u & v & -> & Hu & H). apply Hd in Hu as (x & -> & Hx).
    rewrite atStart_byte in H. cbn [append]. now rewrite Hx, H.
Qed.

(** The matcher computes the meaning of the tree. *)
Theorem run_den re : forall k bot s,
  run re k bot s = true <-> then_ (den re) k bot s.
Proof.
  induction re as [ | c foldCase | negated foldCase ranges | | | | sub IH | sub IH
                  | sub IH | min max sub IH | sub1 IH1 sub2 IH2 | sub1 IH1 sub2 IH2 ];
    intros k bot s; cbn [run].
  - (* OpEmptyMatch *)
    unfold then_. cbn [den]. split.
    + intros H. exists "", s. now rewrite atStart_empty.
    + intros (u & v & -> & -> & H). now rewrite atStart_empty in H.
  - (* OpLiteral *)
    apply byte_then. intros. reflexivity.
  - (* OpCharClass *)
    apply byte_then. intros. reflexivity.
  - (* OpAnyCharNotNL *)
    apply byte_then. intros b u v. cbn [den].
    split; intros (x & Hu & Hx); exists x; (split; [exact Hu|]).
    + apply negb_true_iff, Ascii.eqb_neq. exact Hx.
    + apply negb_true_iff, Ascii.eqb_neq in Hx. exact Hx.
  - (* OpBeginText *)
    unfold then_. cbn [den]. split.
    + intros H. apply andb_true_iff in H as [-> H].
      exists "", s. now rewrite atStart_empty.
    + intros (u & v & -> & (-> & ->) & H). now rewrite atStart_empty in H.
  - (* OpEndText *)
    unfold then_. cbn [den]. split.
    + destruct s; [|discriminate]. intros H. exists "", "". now rewrite atStart_empty.
    + intros (u & v & -> & (-> & ->) & H). now rewrite atStart_empty in H.
  - (* OpStar *)
    rewrite (star_den sub IH). unfold then_. cbn [den]. split.
    + intros (n & u & v & H). exists u, v. intuition eauto.
    + intros (u & v & Hs & (n & Hn) & H). exists n, u, v. auto.
  - (* OpPlus *)
    rewrite IH. split.
    + intros (u1 & v1 & -> & H1 & H). apply (star_den sub IH) in H as (n & H).
      apply (times_den sub IH n) in H.
      assert (Hn : then_ (iter (den sub) (S n)) k bot (u1 ++ v1)).
      { apply (times_den sub IH (S n)). cbn [times]. apply IH. exists u1, v1. auto. }
      destruct Hn as (u & v & Hs & Hn & Hk). exists u, v. cbn [den]. eauto.
    + intros (u & v & -> & (n & Hn) & H).
      assert (Hn' : then_ (iter (den sub) (S n)) k bot (u ++ v)) by (exists u, v; auto).
      apply (times_den sub IH (S n)) in Hn'. cbn [times] in Hn'.
      apply IH in Hn' as (u1 & v1 & Hs & H1 & H2).
      exists u1, v1. split; [exact Hs|]. split; [exact H1|].
      apply (star_den sub IH). exists n. now apply (times_den sub IH n).
  - (* OpQuest *)
    rewrite orb_true_iff, IH. unfold then_. cbn [den]. split.
    + intros [H | (u & v & Hs & Hu & H)].
      * exists "", s. rewrite atStart_empty. auto.
      * exists u, v. auto.
    + intros (u & v & -> & [-> | Hu] & H).
      * left. now rewrite atStart_empty in H.
      * right. exists u, v. auto.
  - (* OpRepeat *)
    rewrite (times_den sub IH). split.
    + intros (u1 & v1 & -> & H1 & H).
      assert (exists n, min <= n
                /\ match max with None => True | Some max => n <= Nat.max min max end
                /\ then_ (iter (den sub) n) k bot (u1 ++ v1)) as (n & Hlo & Hhi & Hn).
      { destruct max as [max|].
        - apply (upto_den sub IH) in H as (j & Hj & H). exists (min + j).
          split; [lia|]. split; [lia|]. apply then_rounds. exists u1, v1. auto.
        - apply (star_den sub IH) in H as (j & H). exists (min + j).
          split; [lia|]. split; [exact I|]. apply then_rounds. exists u1, v1. auto. }
      destruct Hn as (u & v & Hs & Hu & Hk). exists u, v. cbn [den]. eauto 6.
    + intros (u & v & -> & (n & Hlo & Hhi & Hn) & H).
      assert (Hn' : then_ (iter (den sub) (min + (n - min))) k bot (u ++ v)).
      { replace (min + (n - min)) with n by lia. exists u, v. auto. }
      apply then_rounds in Hn' as (u1 & v1 & Hs & H1 & H2).
      exists u1, v1. split; [exact Hs|]. split; [exact H1|].
      destruct max as [max|].
      * apply (upto_den sub IH). exists (n - min). split; [lia | exact H2].
      * apply (star_den sub IH). eauto.
  - (* OpConcat *)
    rewrite IH1. unfold then_. cbn [den]. split.
    + intros (u1 & v1 & -> & H1 & H). apply IH2 in H as (u2 & v & -> & H2 & H).
      exists (u1 ++ u2), v. rewrite append_assoc. split; [reflexivity|].
      split; [eauto | now rewrite <- atStart_append].
    + intros (u & v & -> & (u1 & u2 & -> & H1 & H2) & H).
      exists u1, (u2 ++ v). rewrite append_assoc. split; [reflexivity|].
      split; [exact H1|]. apply IH2. exists u2, v. split; [reflexivity|].
      split; [exact H2 | now rewrite atStart_append].
  - (* OpAlternate *)
    rewrite orb_true_iff, IH1, IH2. unfold then_. cbn [den]. split.
    + intros [(u & v & H)|(u & v & H)]; exists u, v; intuition auto.
    + intros (u & v & Hs & [Hu|Hu] & H); [left|right]; exists u, v; auto.
Qed.

(** [MatchString]: some part of the text matches. *)
Theorem MatchString_den re s :
  MatchString re s = true
  <-> exists before u after,
        s = before ++ u ++ after /\ den (prog re) (before =? "") u after.
Proof.
  unfold MatchString.
  assert (H : forall bot s,
             search (prog re) bot s = true
             <-> exists before u after,
                   s = before ++ u ++ after
                   /\ den (prog re) (atStart bot before) u after).
  { clear s. intros bot s. revert bot. induction s as [|x s IH]; intros bot; cbn [search].
    - rewrite orb_false_r, run_den. split.
      + intros (u & v & Hs & Hu & _). exists "", u, v. now rewrite atStart_empty.
      + intros (before & u & after & Hs & Hu).
        destruct before; [|discriminate Hs]. rewrite atStart_empty in Hu.
        exists u, after. auto.
    - rewrite orb_true_iff, run_den, IH. split.
      + intros [(u & v & Hs & Hu & _) | (before & u & after & -> & Hu)].
        * exists "", u, v. now rewrite atStart_empty.
        * exists (String x before), u, after. now rewrite atStart_byte.
      + intros (before & u & after & Hs & Hu). destruct before as [|y before].
        * left. rewrite atStart_empty in Hu. exists u, after. auto.
        * right. injection Hs as -> ->. rewrite atStart_byte in Hu.
          exists before, u, after. split; [reflexivity|].
          unfold atStart. exact Hu. }
  apply H.
Qed.

(** *** The pattern of a list of choices *)

Lemma parse_literal (b : ascii) t p lr f :
  special b = false ->
  parseLoop (S f) (String b t) p lr = parseLoop f t (literal b p) false.
Proof.
  intros H.
  destruct b as [[] [] [] [] [] [] [] []]; try (vm_compute in H; discriminate H); reflexivity.
Qed.

Lemma parse_escaped (b : ascii) t p lr f :
  special b = true ->
  parseLoop (S f) (String "\" (String b t)) p lr = parseLoop f t (literal b p) false.
Proof.
  intros H.
  destruct b as [[] [] [] [] [] [] [] []]; try (vm_compute in H; discriminate H); reflexivity.
Qed.

(** The fuel stays above the length of what is left to read. *)
Lemma parse_quoted text : forall t p f,
  length (QuoteMeta text ++ t) <= f ->
  exists f', length t <= f' /\
    parseLoop f (QuoteMeta text ++ t) p false = parseLoop f' t (pushText text p) false.
Proof.
  induction text as [|b text IH]; intros t p f Hf.
  - exists f. split; [exact Hf | reflexivity].
  - cbn [QuoteMeta pushText] in *.
    destruct (special b) eqn:Hb; cbn [append length] in *;
      (destruct f as [|f]; [lia|]).
    + rewrite parse_escaped by exact Hb. apply IH. lia.
    + rewrite parse_literal by exact Hb. apply IH. lia.
Qed.

Lemma parse_bar t p lr f :
  parseLoop (S f) (String "|" t) p lr = parseLoop f t (verticalBar p) false.
Proof. reflexivity. Qed.

Lemma parse_joined others : forall first t p f,
  length (strings.Join (map QuoteMeta (first :: others)) "|" ++ t) <= f ->
  exists f', length t <= f' /\
    parseLoop f (strings.Join (map QuoteMeta (first :: others)) "|" ++ t) p false
    = parseLoop f' t (pushChoices first others p) false.
Proof.
  induction others as [|second others IH]; intros first t p f Hf.
  - simpl in *. apply parse_quoted. exact Hf.
  - change (strings.Join (map QuoteMeta (first :: second :: others)) "|")
      with (QuoteMeta first ++ "|" ++ strings.Join (map QuoteMeta (second :: others)) "|") in *.
    rewrite append_assoc in *.
    destruct (parse_quoted first _ p f Hf) as (f1 & Hf1 & ->).
    rewrite append_assoc in *. cbn [append length] in Hf1 |- *.
    destruct f1 as [|f1]; [lia|].
    rewrite parse_bar. cbn [pushChoices].
    apply IH. lia.
Qed.

Lemma pushText_state text : forall p,
  pushText text p =
  {| flagFold := flagFold p; cur := rev (literals (flagFold p) text) ++ cur p;
     alts := alts p; stack := stack p |}.
Proof.
  induction text as [|b text IH]; intros p; cbn [pushText literals rev].
  - destruct p; reflexivity.
  - rewrite IH. cbn [literal push flagFold cur alts stack].
    rewrite <- app_assoc. reflexivity.
Qed.

Lemma pushChoices_state others : forall first p,
  cur p = [] ->
  pushChoices first others p =
  {| flagFold := flagFold p;
     cur := rev (literals (flagFold p) (last (first :: others) ""));
     alts := rev (map (branch (flagFold p)) (removelast (first :: others))) ++ alts p;
     stack := stack p |}.
Proof.
  induction others as [|second others IH]; intros first p Hp.
  - cbn [pushChoices]. rewrite pushText_state, Hp, app_nil_r. reflexivity.
  - cbn [pushChoices]. rewrite IH by reflexivity.
    rewrite pushText_state, Hp, app_nil_r.
    cbn [verticalBar flagFold cur alts stack].
    change (last (first :: second :: others) "") with (last (second :: others) "").
    change (removelast (first :: second :: others))
      with (first :: removelast (second :: others)).
    cbn [map rev]. rewrite <- app_assoc. reflexivity.
Qed.

Lemma collapse_pushChoices first others p :
  cur p = [] -> alts p = [] ->
  collapse (pushChoices first others p)
  = alternateOf (rev (map (branch (flagFold p)) (first :: others))).
Proof.
  intros Hc Ha. rewrite pushChoices_state by exact Hc.
  unfold collapse. cbn [cur alts]. rewrite Ha, app_nil_r.
  fold (branch (flagFold p) (last (first :: others) "")).
  rewrite <- rev_unit, <- map_last.
  rewrite <- (app_removelast_last (l := first :: others) "") by discriminate.
  reflexivity.
Qed.

Lemma parse_flag_i t p lr f :
  parseLoop (S f) (String "(" (String "?" (String "i" (String ")" t)))) p lr
  = parseLoop f t (setFold true p) false.
Proof. reflexivity. Qed.

Lemma parse_beginText t p lr f :
  parseLoop (S f) (String "\" (String "A" t)) p lr
  = parseLoop f t (push OpBeginText p) false.
Proof. reflexivity. Qed.

Lemma parse_endText t p lr f :
  parseLoop (S f) (String "\" (String "z" t)) p lr
  = parseLoop f t (push OpEndText p) false.
Proof. reflexivity. Qed.

Lemma parse_group t p lr f :
  parseLoop (S f) (String "(" (String "?" (String ":" t))) p lr
  = parseLoop f t (openGroup p) false.
Proof. reflexivity. Qed.

Lemma parse_rightParen t p lr f :
  parseLoop (S f) (String ")" t) p lr =
  match rightParen p with
  | Some p' => parseLoop f t p' false
  | None => None
  end.
Proof. reflexivity. Qed.

(** The parser reads the pattern built from a list of choices as the
    alternation of the choices as literal texts within [\A] and [\z]. *)
Lemma choices_parseLoop ignoreCase first others :
  parseLoop (length (choicesExpr ignoreCase (first :: others)))
    (choicesExpr ignoreCase (first :: others)) newParser false
  = Some (choicesSyntax ignoreCase (first :: others)).
Proof.
  unfold choicesExpr.
  set (J := strings.Join (map QuoteMeta (first :: others)) "|").
  assert (Hbody : forall p f, cur p = [OpBeginText] -> alts p = [] -> stack p = [] ->
            length ("(?:" ++ J ++ ")\z") <= f ->
            parseLoop f ("(?:" ++ J ++ ")\z") p false
            = Some (OpConcat (OpConcat OpBeginText
                      (alternateOf (rev (map (branch (flagFold p)) (first :: others)))))
                      OpEndText)).
  { intros p f Hc Ha Hs Hf. cbn [append length] in Hf |- *.
    destruct f as [|f]; [lia|].
    rewrite parse_group.
    destruct (parse_joined others first ")\z" (openGroup p) f) as (f1 & Hf1 & E).
    { fold J. lia. }
    fold J in E. rewrite E. clear E.
    cbn [length] in Hf1.
    destruct f1 as [|[|f1]]; try lia.
    rewrite parse_rightParen.
    unfold rightParen.
    rewrite pushChoices_state by reflexivity.
    cbn [stack openGroup savedFold savedCur savedAlts].
    rewrite parse_endText.
    rewrite <- pushChoices_state by reflexivity.
    rewrite collapse_pushChoices by reflexivity.
    cbn [flagFold openGroup]. rewrite Hc, Ha.
    destruct f1; cbn [parseLoop push stack]; rewrite Hs; reflexivity. }
  destruct ignoreCase; cbn [append length].
  - rewrite parse_flag_i, parse_beginText.
    apply (Hbody (push OpBeginText (setFold true newParser))); try reflexivity.
    cbn [append length]. lia.
  - rewrite parse_beginText.
    apply (Hbody (push OpBeginText newParser)); try reflexivity.
    cbn [append length]. lia.
Qed.

Lemma ascii_text_QuoteMeta s : ascii_text (QuoteMeta s) = ascii_text s.
Proof.
  induction s as [|b s IH]; [reflexivity|].
  cbn [QuoteMeta]. destruct (special b); cbn [ascii_text]; now rewrite IH.
Qed.

(** The pattern built from choices of ASCII text is ASCII text. *)
Lemma choicesExpr_ascii ignoreCase choices :
  forallb ascii_text choices = true ->
  ascii_text (choicesExpr ignoreCase choices) = true.
Proof.
  intros H. unfold choicesExpr. rewrite !ascii_text_append.
  rewrite ascii_text_Join; [now destruct ignoreCase | reflexivity |].
  rewrite forallb_forall in *. intros q [c [<- Hc]]%in_map_iff.
  rewrite ascii_text_QuoteMeta. now apply H.
Qed.

(** The pattern built from a list of choices of ASCII text always
    compiles. *)
Lemma choices_parsed ignoreCase first others :
  forallb ascii_text (first :: others) = true ->
  parse (choicesExpr ignoreCase (first :: others))
  = Some (choicesSyntax ignoreCase (first :: others)).
Proof.
  intros H. unfold parse.
  rewrite (ascii_text_valid _ (choicesExpr_ascii ignoreCase _ H)).
  apply choices_parseLoop.
Qed.

(** *** What the tree of a list of choices matches *)

Lemma run_concatOf_snoc pieces : forall first k,
  run (concatOf (pieces ++ [first])%list) k = run first (run (concatOf pieces) k).
Proof.
  induction pieces as [|re pieces IH]; intros first k.
  - reflexivity.
  - change (concatOf ((re :: pieces) ++ [first])%list)
      with (match (pieces ++ [first])%list with
            | [] => re
            | _ :: _ => OpConcat (concatOf (pieces ++ [first])%list) re
            end).
    destruct (pieces ++ [first])%list eqn:E.
    + destruct pieces; discriminate E.
    + rewrite <- E.
      change (run (OpConcat (concatOf (pieces ++ [first])%list) re) k)
        with (run (concatOf (pieces ++ [first])%list) (run re k)).
      rewrite IH. destruct pieces; reflexivity.
Qed.

Lemma run_branch foldCase text : forall k bot s,
  run (branch foldCase text) k bot s = matchText foldCase text k bot s.
Proof.
  unfold branch.
  induction text as [|c text IH]; intros k bot s; cbn [literals rev matchText].
  - reflexivity.
  - rewrite run_concatOf_snoc. cbn [run].
    destruct s as [|x s]; [reflexivity|]. rewrite IH. reflexivity.
Qed.

Lemma run_alternateOf re branches k bot s :
  run (alternateOf (re :: branches)) k bot s
  = existsb (fun b => run b k bot s) (re :: branches).
Proof.
  revert re. induction branches as [|re' branches IH]; intros re.
  - cbn. now rewrite orb_false_r.
  - change (alternateOf (re :: re' :: branches))
      with (OpAlternate (alternateOf (re' :: branches)) re).
    cbn [run]. rewrite IH. cbn [existsb]. apply orb_comm.
Qed.

Lemma existsb_rev {A} (f : A -> bool) l : existsb f (rev l) = existsb f l.
Proof.
  induction l as [|a l IH]; [reflexivity|].
  cbn [rev existsb]. rewrite existsb_app, IH. cbn. rewrite orb_false_r. apply orb_comm.
Qed.

Lemma matchText_end foldCase text : forall bot s,
  matchText foldCase text (run OpEndText accept) bot s = sameText foldCase text s.
Proof.
  induction text as [|c text IH]; intros bot s; destruct s as [|x s]; cbn; try reflexivity.
  now rewrite IH.
Qed.

Lemma rev_cons_shape {A} (a : A) l : exists b bs, rev (a :: l) = b :: bs.
Proof.
  destruct (rev (a :: l)) as [|b bs] eqn:E.
  - apply (f_equal (@List.length A)) in E. rewrite length_rev in E. discriminate E.
  - now exists b, bs.
Qed.

Lemma search_anchored re after s :
  search (OpConcat (OpConcat OpBeginText re) after) false s = false.
Proof. induction s as [|x s IH]; cbn; [reflexivity | exact IH]. Qed.

Lemma search_choices ignoreCase first others s :
  search (choicesSyntax ignoreCase (first :: others)) true s
  = existsb (fun choice => sameText ignoreCase choice s) (first :: others).
Proof.
  unfold choicesSyntax.
  set (re := alternateOf _).
  assert (H : search (OpConcat (OpConcat OpBeginText re) OpEndText) true s
              = run re (run OpEndText accept) true s).
  { destruct s as [|x s]; cbn [search run andb].
    - apply orb_false_r.
    - rewrite search_anchored. apply orb_false_r. }
  rewrite H. unfold re. clear H re.
  cbn [map]. destruct (rev_cons_shape (branch ignoreCase first) (map (branch ignoreCase) others))
    as (b & bs & E).
  rewrite E, run_alternateOf, <- E, existsb_rev.
  change (branch ignoreCase first :: map (branch ignoreCase) others)
    with (map (branch ignoreCase) (first :: others)).
  induction (first :: others) as [|choice choices IH]; [reflexivity|].
  cbn [map existsb]. now rewrite IH, run_branch, matchText_end.
Qed.

Lemma sameText_exact text : forall s, sameText false text s = (text =? s).
Proof.
  induction text as [|c text IH]; intros [|x s]; cbn; try reflexivity.
  rewrite IH. reflexivity.
Qed.

Lemma sameText_fold text : forall s, sameText true text s = (ToLower text =? ToLower s).
Proof.
  induction text as [|c text IH]; intros [|x s]; cbn; try reflexivity.
  rewrite IH. reflexivity.
Qed.

Lemma sameText_equalsChoice ignoreCase choice input :
  sameText ignoreCase choice input = equalsChoice ignoreCase input choice.
Proof.
  unfold equalsChoice. destruct ignoreCase;
    [apply sameText_fold | apply sameText_exact].
Qed.

(** The tree of a list of choices matches a text that is one of the
    choices, and no other. *)
Lemma choicesReg_matches ignoreCase first others input :
  MatchString (choicesReg ignoreCase (first :: others)) input
  = existsb (equalsChoice ignoreCase input) (first :: others).
Proof.
  unfold MatchString, choicesReg. cbn [prog].
  rewrite search_choices.
  induction (first :: others) as [|choice choices IH]; [reflexivity|].
  cbn [existsb]. now rewrite IH, sameText_equalsChoice.
Qed.

Lemma choicesReg_compiled ignoreCase first others :
  forallb ascii_text (first :: others) = true ->
  MustCompile (choicesExpr ignoreCase (first :: others))
  = Returns (choicesReg ignoreCase (first :: others)).
Proof.
  intros H. unfold MustCompile, Compile. rewrite choices_parsed by exact H.
  reflexivity.
Qed.

(** A pattern that is not valid UTF-8 does not compile. *)
Lemma invalid_panics pattern :
  utf8.ValidString pattern = false -> MustCompile pattern = Panics.
Proof. intros H. unfold MustCompile, Compile, parse. now rewrite H. Qed.

Lemma allReg_compiled : MustCompile ".*" = Returns allReg.
Proof. reflexivity. Qed.

Lemma numReg_compiled : MustCompile "[0-9]{2,}|[1-9]{1}" = Returns numReg.
Proof. reflexivity. Qed.

(** [.*] finds the empty match at the start of any text. *)
Lemma allReg_matches s : MatchString allReg s = true.
Proof. destruct s; reflexivity. Qed.

Lemma star_accept step n bot s : star step accept n bot s = true.
Proof. destruct n; reflexivity. Qed.

Lemma inClass_digits lo x : inClass false false [(lo, "9"%char)] x = within lo "9" x.
Proof.
  unfold inClass, inRanges. cbn. now rewrite !orb_false_r.
Qed.

Lemma run_numReg bot s :
  run (prog numReg) accept bot s =
  match s with
  | EmptyString => false
  | String x s' =>
      (isDigit x && match s' with String y _ => isDigit y | EmptyString => false end)
      || within "1" "9" x
  end.
Proof.
  destruct s as [|x [|y s]]; cbn [numReg prog run times upto digitClass Nat.sub].
  - reflexivity.
  - rewrite !inClass_digits. unfold accept, isDigit.
    now rewrite andb_false_r, andb_true_r.
  - rewrite !inClass_digits, star_accept. unfold accept, isDigit.
    now rewrite !andb_true_r.
Qed.

(** The numeric pattern has no anchors: it finds its match anywhere in
    the text. *)
Lemma numReg_matches s : MatchString numReg s = hasIndexToken s.
Proof.
  unfold MatchString. generalize true.
  induction s as [|x s IH]; intros bot.
  - reflexivity.
  - cbn [search hasIndexToken]. rewrite run_numReg, IH. reflexivity.
Qed.

End RegexpFacts.

(** ** The rule of a Prompter *)

Lemma setReg_cached p re : reg p = Some re -> setReg re p = p.
Proof. destruct p; cbn; intros ->; reflexivity. Qed.

Lemma regexp_pattern p re : Regexp p = Some re -> regexp p = Returns (re, p).
Proof. unfold regexp. intros ->. reflexivity. Qed.

(** What [regexp] derives when nothing is cached. *)
Lemma regexp_fresh p :
  Regexp p = None ->
  regexp (fresh p) =
  match Choices p with
  | [] => Returns (allReg, setReg allReg p)
  | _ :: _ =>
      if IsMenu p then Returns (numReg, setReg numReg p)
      else
        re <- regexp.MustCompile (choicesExpr (IgnoreCase p) (Choices p)) ;;
        Returns (re, setReg re p)
  end.
Proof.
  intros HR. unfold regexp. cbn [fresh Regexp reg Choices IsMenu IgnoreCase]. rewrite HR.
  destruct (Choices p) as [|first others]; [reflexivity|].
  destruct (IsMenu p); reflexivity.
Qed.

(** With a cache that is in order, [regexp] answers as on a fresh receiver. *)
Lemma regexp_cached p re p' :
  Regexp p = None -> cacheOk p ->
  regexp (fresh p) = Returns (re, p') ->
  regexp p = Returns (re, setReg re p).
Proof.
  intros HR Hc Hf. unfold cacheOk in Hc.
  destruct (reg p) as [cached|] eqn:E.
  - destruct Hc as (p'' & Hc). rewrite Hf in Hc. injection Hc as -> _.
    unfold regexp. rewrite HR, E, (setReg_cached p cached E). reflexivity.
  - assert (fresh p = p) as Hp by (destruct p; cbn in *; subst; reflexivity).
    assert (p' = setReg re p) as ->.
    { rewrite regexp_fresh in Hf by exact HR.
      destruct (Choices p); [|destruct (IsMenu p)];
        [| |destruct (regexp.MustCompile _); cbn [bind] in Hf; try discriminate Hf];
        injection Hf as <- <-; reflexivity. }
    rewrite <- Hp at 1. exact Hf.
Qed.

(** The cache stays in order: what [regexp] stores is what it finds again. *)
Lemma regexp_keeps_cache p re p' :
  Regexp p = None -> cacheOk p ->
  regexp p = Returns (re, p') ->
  cacheOk p' /\ regexp p' = Returns (re, p').
Proof.
  intros HR Hc H.
  destruct (reg p) as [cached|] eqn:E.
  - assert (regexp p = Returns (cached, p)) as Hp
      by (unfold regexp; rewrite HR, E; reflexivity).
    rewrite Hp in H. injection H as <- <-. auto.
  - assert (fresh p = p) as Hp by (destruct p; cbn in *; subst; reflexivity).
    assert (regexp (fresh p) = Returns (re, p')) as Hf by (now rewrite Hp).
    pose proof (regexp_cached p re p' HR Hc Hf) as Hs.
    rewrite H in Hs. injection Hs as ->. split.
    + unfold cacheOk. cbn [setReg reg]. exists (setReg re p).
      replace (fresh (setReg re p)) with (fresh p) by reflexivity. exact Hf.
    + unfold regexp. cbn [setReg Regexp reg]. rewrite HR. reflexivity.
Qed.

Lemma regexp_menu p :
  IsMenu p = true -> Regexp p = None -> Choices p <> [] -> cacheOk p ->
  regexp p = Returns (numReg, setReg numReg p).
Proof.
  intros HM HR HC Hc. apply (regexp_cached p numReg (setReg numReg p) HR Hc).
  rewrite regexp_fresh by exact HR.
  destruct (Choices p); [contradiction|]. now rewrite HM.
Qed.

Lemma regexp_noChoices p :
  Regexp p = None -> Choices p = [] -> cacheOk p ->
  regexp p = Returns (allReg, setReg allReg p).
Proof.
  intros HR HC Hc. apply (regexp_cached p allReg (setReg allReg p) HR Hc).
  rewrite regexp_fresh by exact HR. now rewrite HC.
Qed.

(** Choices of ASCII text give a pattern that compiles. *)
Lemma regexp_choices p :
  IsMenu p = false -> Regexp p = None -> Choices p <> [] -> cacheOk p ->
  forallb ascii_text (Choices p) = true ->
  regexp p = Returns (choicesReg (IgnoreCase p) (Choices p),
                      setReg (choicesReg (IgnoreCase p) (Choices p)) p).
Proof.
  intros HM HR HC Hc Ha.
  apply (regexp_cached p _ (setReg (choicesReg (IgnoreCase p) (Choices p)) p) HR Hc).
  rewrite regexp_fresh by exact HR.
  destruct (Choices p); [contradiction|]. rewrite HM.
  now rewrite RegexpFacts.choicesReg_compiled.
Qed.

(** ** One call of [Prompt] *)

Lemma Prompt_default p w fuel :
  UseDefault p || skip w = true ->
  Prompt (S fuel) p w = Returns (Default p, p, emit (Stdout (msg p)) w).
Proof.
  intros H. cbn [Prompt].
  change (skip (emit (Stdout (msg p)) w)) with (skip w). now rewrite H.
Qed.

Lemma Prompt_asks p w fuel :
  UseDefault p = false -> skip w = false ->
  Prompt (S fuel) p w = checked (Prompt fuel) p (asked p w) (orDefault p (typed p w)).
Proof.
  intros HU HS. cbn [Prompt].
  change (skip (emit (Stdout (msg p)) w)) with (skip w). rewrite HU, HS. cbn [orb].
  unfold asked, typed. now destruct (readInput p (emit (Stdout (msg p)) w)).
Qed.

Lemma autoAccept_skip p w : autoAccept p w = UseDefault p || skip w.
Proof.
  unfold autoAccept, skip.
  destruct (UseDefault p), (GO_PROMPTER_USE_DEFAULT w =? ""),
    (stdinIsTerminal w), (stdoutIsTerminal w); reflexivity.
Qed.

Lemma events_emit e w : events (emit e w) = S (events w).
Proof. unfold events. cbn. rewrite length_app. cbn. lia. Qed.

Lemma events_asked p w : S (events w) < events (asked p w).
Proof.
  unfold asked, readInput, read.
  destruct (NoEcho p); destruct (pending (emit (Stdout (msg p)) w)) as [|[text|] rest];
    cbn [snd]; rewrite ?events_emit; unfold events; cbn [trace emit];
    rewrite !length_app; cbn; lia.
Qed.

Lemma events_afterError p w : events w < events (afterError p w).
Proof.
  unfold afterError. destruct (IsMenu p); rewrite ?events_emit; lia.
Qed.

(** Whatever [Prompt] returns, the process has done something more. *)
Lemma Prompt_events fuel : forall p w a p' w',
  Prompt fuel p w = Returns (a, p', w') -> events w < events w'.
Proof.
  induction fuel as [|fuel IH]; intros p w a p' w' H; [discriminate H|].
  destruct (UseDefault p || skip w) eqn:Hauto.
  - rewrite Prompt_default in H by exact Hauto. injection H as _ _ <-.
    rewrite events_emit. lia.
  - apply orb_false_iff in Hauto as [HU HS].
    rewrite Prompt_asks in H by assumption.
    pose proof (events_asked p w) as Hread.
    unfold checked in H.
    destruct (inputIsValid p (orDefault p (typed p w))) as [[valid p1]| |];
      cbn [bind] in H; try discriminate H.
    destruct valid; cbn [negb] in H.
    + injection H as _ _ <-. lia.
    + apply IH in H. pose proof (events_afterError p1 (asked p w)). lia.
Qed.

(** ** The cached rule across calls

    A receiver built by a caller has no cached rule, and the calls below
    change no other field, so [cacheOk] holds of every receiver that is
    only used through them. *)

Lemma regexp_keeps p re p' :
  regexp p = Returns (re, p') ->
  fresh p' = fresh p /\ (cacheOk p -> cacheOk p').
Proof.
  intros H. destruct (Regexp p) as [given|] eqn:HR.
  - rewrite (regexp_pattern p given HR) in H. injection H as _ <-. auto.
  - split.
    + unfold regexp in H. rewrite HR in H.
      destruct (reg p); [injection H as _ <-; reflexivity|].
      destruct (Choices p); [injection H as _ <-; reflexivity|].
      destruct (IsMenu p); [injection H as _ <-; reflexivity|].
      destruct (regexp.MustCompile _); cbn [bind] in H; try discriminate H.
      injection H as _ <-. reflexivity.
    + intros Hc. now apply (regexp_keeps_cache p re p' HR Hc).
Qed.

Lemma inputIsValid_keeps p input valid p' :
  inputIsValid p input = Returns (valid, p') ->
  fresh p' = fresh p /\ (cacheOk p -> cacheOk p').
Proof.
  unfold inputIsValid. intros H.
  destruct (regexp p) as [[re p1]| |] eqn:Hre; cbn [bind] in H; try discriminate H.
  apply regexp_keeps in Hre.
  destruct (negb (IsMenu p1) || negb (regexp.MatchString re input));
    [injection H as _ <-; exact Hre|].
  destruct (strconv.Atoi input) as [it|]; [|injection H as _ <-; exact Hre].
  destruct (_ <? it)%Z; injection H as _ <-; exact Hre.
Qed.

Lemma Prompt_keeps fuel : forall p w a p' w',
  Prompt fuel p w = Returns (a, p', w') ->
  fresh p' = fresh p /\ (cacheOk p -> cacheOk p').
Proof.
  induction fuel as [|fuel IH]; intros p w a p' w' H; [discriminate H|].
  destruct (UseDefault p || skip w) eqn:Hauto.
  - rewrite Prompt_default in H by exact Hauto. injection H as _ <- _. auto.
  - apply orb_false_iff in Hauto as [HU HS].
    rewrite Prompt_asks in H by assumption. unfold checked in H.
    destruct (inputIsValid p (orDefault p (typed p w))) as [[valid p1]| |] eqn:Hv;
      cbn [bind] in H; try discriminate H.
    apply inputIsValid_keeps in Hv as [Hf Hc].
    destruct valid; cbn [negb] in H.
    + injection H as _ <- _. auto.
    + apply IH in H as [Hf' Hc']. split; [congruence | auto].
Qed.

(** ** Validation *)

Lemma inputIsValid_menu p input :
  IsMenu p = true -> Regexp p = None -> Choices p <> [] -> cacheOk p ->
  inputIsValid p input = Returns (menuAccepts p input, setReg numReg p).
Proof.
  intros HM HR HC Hc. unfold inputIsValid, menuAccepts.
  rewrite regexp_menu by assumption. cbn [bind setReg IsMenu Choices].
  rewrite HM. cbn [negb orb].
  destruct (regexp.MatchString numReg input); [|reflexivity]. cbn [negb andb].
  destruct (strconv.Atoi input) as [it|]; [|reflexivity].
  rewrite Z.ltb_antisym. now destruct (it <=? _)%Z.
Qed.

(** ** Validation in a menu *)





(** C3: the code accepts menu answers that are no index strings.  With
    three choices ["00"] is accepted and returned, and it stands for the
    index 0; ["-1"] and ["+4"] are accepted as well. *)
Theorem menu_accepts_non_index :
  inputIsValid abcMenu "00" = Returns (true, setReg numReg abcMenu)
  /\ strconv.Atoi "00" = Some 0%Z
  /\ isIndexString 4 "00" = false
  /\ Prompt 1 abcMenu (terminal [Some "00"])
     = Returns ("00", setReg numReg abcMenu, asked abcMenu (terminal [Some "00"]))
  /\ inputIsValid abcMenu "-1" = Returns (true, setReg numReg abcMenu)
  /\ isIndexString 4 "-1" = false
  /\ inputIsValid abcMenu "+4" = Returns (true, setReg numReg abcMenu)
  /\ isIndexString 4 "+4" = false.
Proof. repeat apply conj; reflexivity. Qed.

(** ** The auto-accept path *)

(** C2, as amended: [Prompt] returns [Default] with nothing read, only
    the message printed, exactly when [UseDefault] is set, or the override
    variable is non-empty, or standard input or standard output is not an
    interactive terminal. *)
Theorem Prompt_autoAccept p w fuel :
  autoAccept p w = true
  <-> Prompt (S fuel) p w = Returns (Default p, p, emit (Stdout (msg p)) w).
Proof.
  rewrite autoAccept_skip. split.
  - apply Prompt_default.
  - intros H. destruct (UseDefault p || skip w) eqn:Hauto; [reflexivity|].
    exfalso. apply orb_false_iff in Hauto as [HU HS].
    rewrite Prompt_asks in H by assumption.
    pose proof (events_asked p w) as Hread.
    unfold checked in H.
    destruct (inputIsValid p (orDefault p (typed p w))) as [[valid p1]| |];
      cbn [bind] in H; try discriminate H.
    destruct valid; cbn [negb] in H.
    + injection H as _ _ Hw. rewrite Hw, events_emit in Hread. lia.
    + apply Prompt_events in H. rewrite events_emit in H.
      pose proof (events_afterError p1 (asked p w)). lia.
Qed.

(** With the override variable set nothing is read, whatever is typed. *)
Lemma Prompt_autoAccept_override :
  GO_PROMPTER_USE_DEFAULT (overridden "1" [Some "n"]) <> ""
  /\ Prompt 1 (choose ["y"; "n"] false "y" false) (overridden "1" [Some "n"])
     = Returns ("y", choose ["y"; "n"] false "y" false,
                emit (Stdout "Continue (y/n) [y]: ") (overridden "1" [Some "n"])).
Proof.
  split; [discriminate|].
  exact (proj1 (Prompt_autoAccept (choose ["y"; "n"] false "y" false)
                  (overridden "1" [Some "n"]) 0) eq_refl).
Defined.

(** C2, as worded, fails when only one of the two streams is a terminal:
    the wording asks for neither, the code for not both. *)
Lemma Prompt_autoAccepts_redirected :
  autoAcceptAsWorded plain (redirected [Some "x"]) = false
  /\ Prompt 1 plain (redirected [Some "x"])
     = Returns (Default plain, plain, emit (Stdout (msg plain)) (redirected [Some "x"])).
Proof. split; reflexivity. Qed.

(** C9: on the auto-accept path [Default] is returned as it is, whether
    the rule accepts it or not; [inputIsValid] is not called, and the
    receiver comes back unchanged. *)
Theorem autoAccept_skips_validation p w fuel :
  UseDefault p || skip w = true ->
  Prompt (S fuel) p w = Returns (Default p, p, emit (Stdout (msg p)) w).
Proof. apply Prompt_default. Qed.

(** [UseDefault] with a [Default] that is none of the choices. *)
Lemma autoAccept_skips_validation_maybe :
  UseDefault (choose ["y"; "n"] false "maybe" true) || skip (terminal []) = true
  /\ (exists p', inputIsValid (choose ["y"; "n"] false "maybe" true) "maybe"
                 = Returns (false, p'))
  /\ Prompt 1 (choose ["y"; "n"] false "maybe" true) (terminal [])
     = Returns ("maybe", choose ["y"; "n"] false "maybe" true,
                emit (Stdout "Continue (y/n) [maybe]: ") (terminal [])).
Proof.
  split; [reflexivity|]. split.
  - eexists. reflexivity.
  - exact (autoAccept_skips_validation (choose ["y"; "n"] false "maybe" true)
             (terminal []) 0 eq_refl).
Defined.

(** ** Validation outside a menu *)

(** C4, as amended: outside menu mode, with an explicit pattern only the
    pattern decides; the choices and the cached rule play no part. *)
Theorem pattern_inputIsValid p re input :
  Regexp p = Some re -> IsMenu p = false ->
  inputIsValid p input = Returns (regexp.MatchString re input, p).
Proof.
  intros HR HM. unfold inputIsValid.
  rewrite (regexp_pattern p re HR). cbn [bind]. now rewrite HM.
Qed.

(** A pattern for numbers next to the choices y and n: ["42"] passes,
    ["y"] does not. *)
Lemma pattern_inputIsValid_examples :
  Regexp (withRegexp numReg (choose ["y"; "n"] false "" false)) = Some numReg
  /\ IsMenu (withRegexp numReg (choose ["y"; "n"] false "" false)) = false
  /\ inputIsValid (withRegexp numReg (choose ["y"; "n"] false "" false)) "42"
     = Returns (true, withRegexp numReg (choose ["y"; "n"] false "" false))
  /\ inputIsValid (withRegexp numReg (choose ["y"; "n"] false "" false)) "y"
     = Returns (false, withRegexp numReg (choose ["y"; "n"] false "" false)).
Proof.
  split; [reflexivity|]. split; [reflexivity|]. split.
  - exact (pattern_inputIsValid (withRegexp numReg (choose ["y"; "n"] false "" false))
             numReg "42" eq_refl eq_refl).
  - exact (pattern_inputIsValid (withRegexp numReg (choose ["y"; "n"] false "" false))
             numReg "y" eq_refl eq_refl).
Defined.

(** C4, as worded, fails in a menu: there the answer must also parse as an
    integer that the number of choices bounds. *)
Lemma menu_pattern_is_not_alone :
  regexp.MatchString allReg "abc" = true
  /\ inputIsValid (withRegexp allReg (menu ["a"] 0)) "abc"
     = Returns (false, withRegexp allReg (menu ["a"] 0))
  /\ inputIsValid (withRegexp allReg (menu ["a"] 0)) "3"
     = Returns (false, withRegexp allReg (menu ["a"] 0))
  /\ inputIsValid (withRegexp allReg (menu ["a"; "b"] 0)) "3"
     = Returns (true, withRegexp allReg (menu ["a"; "b"] 0)).
Proof. repeat apply conj; reflexivity. Qed.

Lemma orDefault_typed p input : input <> "" -> orDefault p input = input.
Proof.
  intros H. unfold orDefault. apply String.eqb_neq in H. now rewrite H.
Qed.




(** ** The empty answer *)

(** C6: at a prompt that asks, an empty line is replaced before it is
    checked, by the decimal form of [DefaultMenuItem] in a menu and by
    [Default] otherwise; a line that is not empty is checked as typed. *)
Theorem Prompt_empty_line p w fuel :
  UseDefault p = false -> skip w = false ->
  (typed p w = "" -> IsMenu p = true ->
   Prompt (S fuel) p w
   = checked (Prompt fuel) p (asked p w) (strconv.Itoa (DefaultMenuItem p)))
  /\ (typed p w = "" -> IsMenu p = false ->
      Prompt (S fuel) p w = checked (Prompt fuel) p (asked p w) (Default p))
  /\ (typed p w <> "" ->
      Prompt (S fuel) p w = checked (Prompt fuel) p (asked p w) (typed p w)).
Proof.
  intros HU HS. rewrite Prompt_asks by assumption. repeat split.
  - intros Ht Hm. unfold orDefault. now rewrite Ht, Hm.
  - intros Ht Hm. unfold orDefault. now rewrite Ht, Hm.
  - intros Ht. now rewrite orDefault_typed.
Qed.

(** An empty line in the menu of the example, and at a y/n prompt whose
    [Default] is n. *)
Lemma Prompt_empty_line_examples :
  UseDefault abcMenu = false /\ skip (terminal [Some ""]) = false
  /\ Prompt 1 abcMenu (terminal [Some ""])
     = Returns ("2", setReg numReg abcMenu, asked abcMenu (terminal [Some ""]))
  /\ Prompt 1 (choose ["y"; "n"] false "n" false) (terminal [Some ""])
     = Returns ("n", setReg (choicesReg false ["y"; "n"]) (choose ["y"; "n"] false "n" false),
                asked (choose ["y"; "n"] false "n" false) (terminal [Some ""]))
  /\ Prompt 1 (choose ["y"; "n"] false "n" false) (terminal [Some "y"])
     = Returns ("y", setReg (choicesReg false ["y"; "n"]) (choose ["y"; "n"] false "n" false),
                asked (choose ["y"; "n"] false "n" false) (terminal [Some "y"])).
Proof.
  split; [reflexivity|]. split; [reflexivity|]. split; [|split].
  - exact (proj1 (Prompt_empty_line abcMenu (terminal [Some ""]) 0 eq_refl eq_refl)
             eq_refl eq_refl).
  - exact (proj1 (proj2 (Prompt_empty_line (choose ["y"; "n"] false "n" false)
                           (terminal [Some ""]) 0 eq_refl eq_refl))
             eq_refl eq_refl).
  - refine (proj2 (proj2 (Prompt_empty_line (choose ["y"; "n"] false "n" false)
                           (terminal [Some "y"]) 0 eq_refl eq_refl)) _).
    discriminate.
Defined.

(** ** No choices and no pattern *)

(** C7, as amended: outside menu mode, with no choices and no explicit
    pattern, the rule is [allReg], every input is accepted, and a prompt
    that asks returns the line as typed, or [Default] for an empty line. *)
Theorem plain_accepts_all p :
  IsMenu p = false -> Regexp p = None -> Choices p = [] -> cacheOk p ->
  regexp p = Returns (allReg, setReg allReg p)
  /\ (forall input, regexp.MatchString allReg input = true)
  /\ (forall input, inputIsValid p input = Returns (true, setReg allReg p))
  /\ (forall w fuel,
        UseDefault p = false -> skip w = false ->
        Prompt (S fuel) p w
        = Returns (if typed p w =? "" then Default p else typed p w,
                   setReg allReg p, asked p w)).
Proof.
  intros HM HR HC Hc.
  assert (Hvalid : forall input, inputIsValid p input = Returns (true, setReg allReg p)).
  { intros input. unfold inputIsValid. rewrite regexp_noChoices by assumption.
    cbn [bind setReg IsMenu]. rewrite HM, RegexpFacts.allReg_matches. reflexivity. }
  split; [now apply regexp_noChoices|].
  split; [exact RegexpFacts.allReg_matches|].
  split; [exact Hvalid|].
  intros w fuel HU HS. rewrite Prompt_asks by assumption.
  unfold checked. rewrite Hvalid. cbn [bind negb].
  unfold orDefault. now rewrite HM.
Qed.

(** A prompt for a name, with no [Default]. *)
Lemma plain_accepts_all_examples :
  inputIsValid plain "" = Returns (true, setReg allReg plain)
  /\ Prompt 1 plain (terminal [Some ""])
     = Returns ("", setReg allReg plain, asked plain (terminal [Some ""]))
  /\ Prompt 1 plain (terminal [Some "Ada L."])
     = Returns ("Ada L.", setReg allReg plain, asked plain (terminal [Some "Ada L."])).
Proof.
  pose proof (plain_accepts_all plain eq_refl eq_refl eq_refl I) as (_ & _ & Hvalid & Hask).
  split; [exact (Hvalid "")|]. split.
  - exact (Hask (terminal [Some ""]) 0 eq_refl eq_refl).
  - exact (Hask (terminal [Some "Ada L."]) 0 eq_refl eq_refl).
Defined.

(** C7, as worded, fails for a menu without choices: the rule matches
    ["abc"] but the answer is rejected, and an empty line with an empty
    [Default] gives ["0"]. *)
Lemma empty_menu_is_not_plain :
  regexp (menu [] 0) = Returns (allReg, setReg allReg (menu [] 0))
  /\ regexp.MatchString allReg "abc" = true
  /\ inputIsValid (menu [] 0) "abc" = Returns (false, setReg allReg (menu [] 0))
  /\ Default (menu [] 0) = ""
  /\ Prompt 1 (menu [] 0) (terminal [Some ""])
     = Returns ("0", setReg allReg (menu [] 0), asked (menu [] 0) (terminal [Some ""])).
Proof. repeat apply conj; reflexivity. Qed.

(** ** A menu without a default *)

(** C10, as amended: in a menu with at least one choice, no explicit
    pattern and [DefaultMenuItem = 0], an empty line becomes ["0"], which
    the rule rejects; nothing is returned for it, the error is printed and
    the prompt starts again. *)
Theorem menu_no_default_retries p w fuel :
  IsMenu p = true -> DefaultMenuItem p = 0%Z ->
  Regexp p = None -> Choices p <> [] -> cacheOk p ->
  UseDefault p = false -> skip w = false -> typed p w = "" ->
  orDefault p (typed p w) = "0"
  /\ inputIsValid p "0" = Returns (false, setReg numReg p)
  /\ Prompt (S fuel) p w
     = Prompt fuel (setReg numReg p) (afterError (setReg numReg p) (asked p w)).
Proof.
  intros HM HD HR HC Hc HU HS Htyped.
  assert (Hzero : orDefault p (typed p w) = "0").
  { unfold orDefault. now rewrite Htyped, HM, HD. }
  assert (Hvalid : inputIsValid p "0" = Returns (false, setReg numReg p)).
  { now rewrite inputIsValid_menu by assumption. }
  split; [exact Hzero|]. split; [exact Hvalid|].
  rewrite Prompt_asks by assumption. rewrite Hzero.
  unfold checked. rewrite Hvalid. reflexivity.
Qed.

(** An empty line, then ["3"]: the first round returns nothing, the
    second returns ["3"]. *)
Lemma menu_no_default_retries_example :
  orDefault (menu ["a"; "b"; "c"] 0) "" = "0"
  /\ inputIsValid (menu ["a"; "b"; "c"] 0) "0"
     = Returns (false, setReg numReg (menu ["a"; "b"; "c"] 0))
  /\ Prompt 1 (menu ["a"; "b"; "c"] 0) (terminal [Some ""; Some "3"]) = OutOfFuel
  /\ Prompt 2 (menu ["a"; "b"; "c"] 0) (terminal [Some ""; Some "3"])
     = Returns ("3", setReg numReg (menu ["a"; "b"; "c"] 0),
                asked (setReg numReg (menu ["a"; "b"; "c"] 0))
                  (afterError (setReg numReg (menu ["a"; "b"; "c"] 0))
                     (asked (menu ["a"; "b"; "c"] 0) (terminal [Some ""; Some "3"])))).
Proof.
  pose proof (menu_no_default_retries (menu ["a"; "b"; "c"] 0)
                (terminal [Some ""; Some "3"]) 1
                eq_refl eq_refl eq_refl ltac:(discriminate) I eq_refl eq_refl eq_refl)
    as (Hzero & Hvalid & Hagain).
  split; [exact Hzero|]. split; [exact Hvalid|]. split; [reflexivity|].
  rewrite Hagain. reflexivity.
Defined.

(** C10, as worded, fails where [regexp] does not pick the numeric rule:
    in a menu without choices, or with an explicit pattern that matches
    ["0"], the empty line is returned as ["0"]. *)
Lemma menu_other_rule_returns_zero :
  Prompt 1 (menu [] 0) (terminal [Some ""])
  = Returns ("0", setReg allReg (menu [] 0), asked (menu [] 0) (terminal [Some ""]))
  /\ Prompt 1 (withRegexp allReg (menu ["a"; "b"; "c"] 0)) (terminal [Some ""])
     = Returns ("0", withRegexp allReg (menu ["a"; "b"; "c"] 0),
                asked (withRegexp allReg (menu ["a"; "b"; "c"] 0)) (terminal [Some ""])).
Proof. split; reflexivity. Qed.

(** ** The error message *)

(** The loop of [errorMsg] and its [Sprintf] give the enumeration. *)
Lemma errorMsg_enumerated rest : forall c d,
  strings.Join (map (fun v => "`" ++ v ++ "`") (removelast (c :: d :: rest))) ", "
    ++ " or `" ++ last (c :: d :: rest) "" ++ "`"
  = enumerated (c :: d :: rest).
Proof.
  induction rest as [|e rest IH]; intros c d.
  - cbn [removelast map strings.Join last enumerated].
    rewrite !append_assoc. reflexivity.
  - change (removelast (c :: d :: e :: rest)) with (c :: removelast (d :: e :: rest)).
    change (last (c :: d :: e :: rest) "") with (last (d :: e :: rest) "").
    change (enumerated (c :: d :: e :: rest))
      with ("`" ++ c ++ "`, " ++ enumerated (d :: e :: rest)).
    rewrite <- IH.
    change (removelast (d :: e :: rest)) with (d :: removelast (e :: rest)).
    cbn [map strings.Join].
    rewrite !append_assoc. reflexivity.
Qed.

(** C8: [errorMsg] gives the pattern's source between slashes when an
    explicit pattern is set; otherwise, outside menu mode, the choices in
    backquotes, the last one joined with "or"; otherwise nothing.  Three
    choices a, b, c give exactly the text of the example. *)
Theorem errorMsg_text :
  (forall p, errorMsg p = errorText p)
  /\ errorMsg (choose ["a"; "b"; "c"] false "" false) = "# Enter `a`, `b` or `c`"
  /\ errorMsg (choose ["a"] false "" false) = "# Enter `a`"
  /\ errorMsg (withRegexp numReg (choose ["a"; "b"] false "" false))
     = "# Answer should match /[0-9]{2,}|[1-9]{1}/"
  /\ errorMsg abcMenu = "" /\ errorMsg plain = "".
Proof.
  split; [|repeat apply conj; reflexivity].
  intros p. unfold errorMsg, errorText, regexp.String_.
  destruct (Regexp p); [reflexivity|].
  destruct (Choices p) as [|c [|d rest]]; destruct (IsMenu p); try reflexivity.
  cbn [negb]. now rewrite errorMsg_enumerated.
Qed.

(** * Further properties *)

(** ** Decimal numbers: [Itoa] and [Atoi] *)

Lemma digits_uint_acc d : forall acc,
  strconv.digits (NilEmpty.string_of_uint d) (Z.pos acc)
  = Some (Z.pos (Pos.of_uint_acc d acc)).
Proof.
  induction d; intros acc; cbn [NilEmpty.string_of_uint strconv.digits Pos.of_uint_acc];
    try reflexivity;
    match goal with
    | |- context [isDigit ?c] => change (isDigit c) with true; cbv iota
    end;
    rewrite <- IHd; f_equal; unfold strconv.digitVal.
    all: cbn [N_of_ascii N_of_digits]; lia.
Qed.

Lemma digits_uint d :
  strconv.digits (NilEmpty.string_of_uint d) 0 = Some (Z.of_N (Pos.of_uint d)).
Proof.
  induction d; cbn [NilEmpty.string_of_uint strconv.digits Pos.of_uint];
    try reflexivity;
    match goal with
    | |- context [isDigit ?c] => change (isDigit c) with true; cbv iota
    end;
    [exact IHd | ..]; apply (digits_uint_acc d).
Qed.

(** The decimal form of a positive number: not empty, a digit first. *)
Lemma to_uint_shape p :
  exists c s, NilEmpty.string_of_uint (Pos.to_uint p) = String c s
              /\ isDigit c = true.
Proof.
  pose proof (DecimalPos.Unsigned.to_uint_nonnil p) as H.
  destruct (Pos.to_uint p); [contradiction | ..]; cbn; eauto.
Qed.

Lemma Itoa_pos p :
  strconv.Itoa (Z.pos p) = NilEmpty.string_of_uint (Pos.to_uint p).
Proof.
  unfold strconv.Itoa. cbn.
  pose proof (DecimalPos.Unsigned.to_uint_nonnil p) as H.
  unfold NilZero.string_of_uint. destruct (Pos.to_uint p); [contradiction | ..]; reflexivity.
Qed.

Lemma Itoa_neg p :
  strconv.Itoa (Z.neg p) = String "-" (NilEmpty.string_of_uint (Pos.to_uint p)).
Proof.
  unfold strconv.Itoa. cbn.
  pose proof (DecimalPos.Unsigned.to_uint_nonnil p) as H.
  unfold NilZero.string_of_uint. destruct (Pos.to_uint p); [contradiction | ..]; reflexivity.
Qed.

Lemma digits_to_uint p :
  strconv.digits (NilEmpty.string_of_uint (Pos.to_uint p)) 0 = Some (Z.pos p).
Proof. now rewrite digits_uint, DecimalPos.Unsigned.of_to. Qed.

(** [Atoi] reads back what [Itoa] wrote, for every [int]. *)
Lemma Atoi_Itoa z :
  (strconv.minInt <= z <= strconv.maxInt)%Z -> strconv.Atoi (strconv.Itoa z) = Some z.
Proof.
  intros Hz. destruct z as [|p|p].
  - reflexivity.
  - rewrite Itoa_pos. destruct (to_uint_shape p) as (c & s & E & Hc).
    pose proof (digits_to_uint p) as Hd. rewrite E in *.
    unfold strconv.Atoi.
    assert (Hsign : ((c =? "-")%char || (c =? "+")%char) = false).
    { destruct c as [[] [] [] [] [] [] [] []]; try discriminate Hc; reflexivity. }
    rewrite Hsign, Hd.
    assert ((c =? "-")%char = false) as -> by (now apply orb_false_iff in Hsign).
    destruct Hz as [H1 H2].
    apply Z.leb_le in H1, H2. now rewrite H1, H2.
  - rewrite Itoa_neg. destruct (to_uint_shape p) as (c & s & E & Hc).
    pose proof (digits_to_uint p) as Hd. rewrite E in *.
    unfold strconv.Atoi. cbn [Ascii.eqb Bool.eqb orb]. 
    change (("-" =? "-")%char) with true. cbv iota. cbn [orb]. rewrite Hd.
    destruct Hz as [H1 H2].
    change (- Z.pos p)%Z with (Z.neg p).
    apply Z.leb_le in H1, H2. now rewrite H1, H2.
Qed.

Lemma digits_allDigits s : forall n m, strconv.digits s n = Some m -> allDigits s = true.
Proof.
  induction s as [|c s IH]; intros n m H; [reflexivity|].
  cbn [strconv.digits allDigits] in *.
  destruct (isDigit c); [|discriminate H]. exact (IH _ _ H).
Qed.

(** What [Atoi] accepts: digits, at least one, after an optional sign. *)
Lemma Atoi_shape s it :
  strconv.Atoi s = Some it ->
  exists c body,
    allDigits (String c body) = true
    /\ (s = String c body \/ s = String "-" (String c body) \/ s = String "+" (String c body)).
Proof.
  unfold strconv.Atoi. destruct s as [|s0 rest]; [discriminate|].
  destruct ((s0 =? "-")%char || (s0 =? "+")%char) eqn:Hsign.
  - destruct rest as [|c body]; [discriminate|].
    destruct (strconv.digits (String c body) 0) as [n|] eqn:Hd; [|discriminate].
    intros _. exists c, body. split; [exact (digits_allDigits _ _ _ Hd)|].
    apply orb_true_iff in Hsign as [H|H]; apply Ascii.eqb_eq in H; subst; auto.
  - destruct (strconv.digits (String s0 rest) 0) as [n|] eqn:Hd; [|discriminate].
    intros _. exists s0, rest. split; [exact (digits_allDigits _ _ _ Hd) | auto].
Qed.

Lemma digit_cases c :
  isDigit c = true ->
  within "1" "9" c = negb (c =? "0")%char
  /\ (c =? "+")%char = false /\ (c =? "-")%char = false.
Proof.
  destruct c as [[] [] [] [] [] [] [] []]; intros H; try discriminate H;
    repeat split.
Qed.

Lemma hasIndexToken_digits c body :
  allDigits (String c body) = true ->
  hasIndexToken (String c body) = negb (String c body =? "0").
Proof.
  cbn [allDigits]. intros H. apply andb_true_iff in H as [Hc Hbody].
  destruct (digit_cases c Hc) as (Hnz & _ & _).
  destruct body as [|d body].
  - cbn [hasIndexToken]. rewrite Hc, Hnz. cbn [andb orb String.eqb].
    rewrite orb_false_r. destruct (c =? "0")%char; reflexivity.
  - cbn [allDigits] in Hbody. apply andb_true_iff in Hbody as [Hd _].
    cbn [hasIndexToken]. rewrite Hc, Hd. cbn [andb orb String.eqb].
    destruct (c =? "0")%char; reflexivity.
Qed.

(** Of what [Atoi] reads, the numeric pattern refuses the three ways of
    writing zero with one digit, and nothing else. *)
Lemma numReg_Atoi s it :
  strconv.Atoi s = Some it ->
  regexp.MatchString numReg s = negb (zeroText s).
Proof.
  intros H. rewrite RegexpFacts.numReg_matches.
  destruct (Atoi_shape s it H) as (c & body & Hd & [-> | [-> | ->]]).
  - rewrite (hasIndexToken_digits c body Hd). unfold zeroText.
    cbn [allDigits] in Hd. apply andb_true_iff in Hd as [Hc _].
    destruct (digit_cases c Hc) as (_ & Hplus & Hminus).
    cbn [String.eqb]. rewrite Hplus, Hminus. now rewrite !orb_false_r.
  - change (hasIndexToken (String "-" (String c body)))
      with (hasIndexToken (String c body)).
    rewrite (hasIndexToken_digits c body Hd). reflexivity.
  - change (hasIndexToken (String "+" (String c body)))
      with (hasIndexToken (String c body)).
    rewrite (hasIndexToken_digits c body Hd). unfold zeroText.
    cbn [String.eqb Ascii.eqb Bool.eqb orb]. 
    change ("+" =? "0")%char with false. change ("+" =? "+")%char with true.
    change ("+" =? "-")%char with false. cbv iota. now rewrite orb_false_r.
Qed.

(** ** The receiver across calls *)

(** The fields a caller sets are those of [fresh]. *)
Lemma fresh_fields p p' :
  fresh p' = fresh p ->
  IsMenu p' = IsMenu p /\ Choices p' = Choices p /\ Regexp p' = Regexp p
  /\ UseDefault p' = UseDefault p /\ NoEcho p' = NoEcho p
  /\ msg p' = msg p /\ errorMsg p' = errorMsg p
  /\ (forall input, orDefault p' input = orDefault p input).
Proof.
  intros H.
  change (IsMenu (fresh p') = IsMenu (fresh p)
          /\ Choices (fresh p') = Choices (fresh p)
          /\ Regexp (fresh p') = Regexp (fresh p)
          /\ UseDefault (fresh p') = UseDefault (fresh p)
          /\ NoEcho (fresh p') = NoEcho (fresh p)
          /\ msg (fresh p') = msg (fresh p)
          /\ errorMsg (fresh p') = errorMsg (fresh p)
          /\ (forall input, orDefault (fresh p') input = orDefault (fresh p) input)).
  rewrite H. repeat split.
Qed.

(** Once [regexp] has answered, it answers the same on the receiver it
    left, and leaves that one as it is. *)
Lemma regexp_again p re p' :
  regexp p = Returns (re, p') -> regexp p' = Returns (re, p').
Proof.
  intros H. unfold regexp in *.
  destruct (Regexp p) as [given|] eqn:HR.
  - injection H as <- <-. now rewrite HR.
  - destruct (reg p) as [cached|] eqn:Hreg.
    + injection H as <- <-. now rewrite HR, Hreg.
    + assert (p' = setReg re p) as ->.
      { destruct (Choices p); [|destruct (IsMenu p)];
          try (injection H as <- <-; reflexivity).
        destruct (regexp.MustCompile _); cbn [bind] in H; try discriminate H.
        injection H as <- <-. reflexivity. }
      cbn [setReg Regexp reg]. now rewrite HR.
Qed.

(** The cached rule changes no verdict. *)
Lemma inputIsValid_again p input valid p' :
  inputIsValid p input = Returns (valid, p') ->
  forall other,
    inputIsValid p' other = inputIsValid p other
    /\ exists verdict, inputIsValid p' other = Returns (verdict, p').
Proof.
  unfold inputIsValid. intros H other.
  destruct (regexp p) as [[re p1]| |] eqn:Hre; cbn [bind] in H; try discriminate H.
  assert (p' = p1) as ->.
  { destruct (negb (IsMenu p1) || negb (regexp.MatchString re input));
      [injection H as _ <-; reflexivity|].
    destruct (strconv.Atoi input) as [it|]; [|injection H as _ <-; reflexivity].
    destruct (_ <? it)%Z; injection H as _ <-; reflexivity. }
  rewrite (regexp_again p re p1 Hre). cbn [bind]. split; [reflexivity|].
  destruct (negb (IsMenu p1) || negb (regexp.MatchString re other)); [eauto|].
  destruct (strconv.Atoi other) as [it|]; [|eauto].
  destruct (_ <? it)%Z; eauto.
Qed.

(** ** Rounds of the prompt *)

Lemma typed_lineOf p w : typed p w = lineOf p (hd None (pending w)).
Proof.
  unfold typed, readInput, read, lineOf. cbn [emit pending].
  destruct (NoEcho p); destruct (pending w) as [|[text|] rest]; reflexivity.
Qed.

Lemma asked_after p w : asked p w = after (attempt p) 1 w.
Proof.
  unfold asked, readInput, read, after, attempt, emit.
  destruct (NoEcho p); destruct (pending w) as [|[text|] rest];
    cbn [snd pending trace tl skipn GO_PROMPTER_USE_DEFAULT stdinIsTerminal
         stdoutIsTerminal];
    rewrite <- ?app_assoc; reflexivity.
Qed.

Lemma afterError_after p w : afterError p w = after (complaint p) 0 w.
Proof.
  unfold afterError, after, complaint, emit.
  destruct (IsMenu p);
    cbn [pending trace skipn GO_PROMPTER_USE_DEFAULT stdinIsTerminal stdoutIsTerminal];
    rewrite <- ?app_assoc; reflexivity.
Qed.

Lemma after_after e1 n1 e2 n2 w :
  after e2 n2 (after e1 n1 w) = after (e1 ++ e2)%list (n1 + n2) w.
Proof.
  unfold after. cbn [pending trace GO_PROMPTER_USE_DEFAULT stdinIsTerminal stdoutIsTerminal].
  rewrite <- app_assoc, skipn_skipn, (Nat.add_comm n2 n1). reflexivity.
Qed.

Lemma skip_after e n w : skip (after e n w) = skip w.
Proof. reflexivity. Qed.

Lemma same_fields_events p p' :
  fresh p' = fresh p ->
  attempt p' = attempt p /\ complaint p' = complaint p
  /\ (forall k, rounds k p' = rounds k p)
  /\ (forall r, lineOf p' r = lineOf p r).
Proof.
  intros H. destruct (fresh_fields p p' H) as (HM & _ & _ & _ & HN & Hmsg & Herr & _).
  assert (Ha : attempt p' = attempt p) by (unfold attempt; now rewrite Hmsg, HN).
  assert (Hc : complaint p' = complaint p) by (unfold complaint; now rewrite Herr, HM).
  repeat split; auto.
  - induction k as [|k IH]; cbn [rounds]; [reflexivity | now rewrite Ha, Hc, IH].
  - intros r. unfold lineOf. now rewrite HN.
Qed.

Lemma rounds_snoc k p : rounds (S k) p = (rounds k p ++ attempt p ++ complaint p)%list.
Proof.
  induction k as [|k IH]; cbn [rounds] in *.
  - now rewrite app_nil_r.
  - rewrite <- !app_assoc in *. do 2 f_equal. exact IH.
Qed.

(** One round of a prompt that asks, read off [checked]. *)
Lemma Prompt_round p w fuel :
  UseDefault p = false -> skip w = false ->
  Prompt (S fuel) p w =
  match inputIsValid p (orDefault p (lineOf p (hd None (pending w)))) with
  | Returns (true, p') =>
      Returns (orDefault p (lineOf p (hd None (pending w))), p', after (attempt p) 1 w)
  | Returns (false, p') => Prompt fuel p' (after (attempt p ++ complaint p')%list 1 w)
  | Panics => Panics
  | OutOfFuel => OutOfFuel
  end.
Proof.
  intros HU HS. rewrite Prompt_asks by assumption.
  rewrite typed_lineOf, asked_after. unfold checked.
  destruct (inputIsValid p _) as [[[] p']| |]; cbn [bind negb]; try reflexivity.
  now rewrite afterError_after, after_after.
Qed.

Lemma verdict_again p input valid p' :
  inputIsValid p input = Returns (valid, p') ->
  forall other, verdict p' other = verdict p other.
Proof.
  intros H other. unfold verdict.
  now rewrite (proj1 (inputIsValid_again p input valid p' H other)).
Qed.

Lemma hd_nth {A} (l : list A) d : hd d l = nth 0 l d.
Proof. destruct l; reflexivity. Qed.

(** What a call that asks and returns has gone through: [k] rejected
    answers, then one that [inputIsValid] accepts. *)
Lemma Prompt_returns fuel : forall p w a p' w',
  UseDefault p = false -> skip w = false ->
  Prompt fuel p w = Returns (a, p', w') ->
  exists k,
    w' = after (rounds k p ++ attempt p)%list (S k) w
    /\ a = orDefault p (lineOf p (nth k (pending w) None))
    /\ inputIsValid p a = Returns (true, p')
    /\ forall j, j < k ->
         verdict p (orDefault p (lineOf p (nth j (pending w) None))) = Some false.
Proof.
  induction fuel as [|fuel IH]; intros p w a p' w' HU HS H; [discriminate H|].
  rewrite Prompt_round in H by assumption. rewrite hd_nth in H.
  destruct (inputIsValid p (orDefault p (lineOf p (nth 0 (pending w) None))))
    as [[[] p1]| |] eqn:Hv; try discriminate H.
  - injection H as <- <- <-. exists 0. cbn [rounds app].
    repeat split; [exact Hv|]. intros j Hj. lia.
  - destruct (inputIsValid_keeps _ _ _ _ Hv) as [Hf _].
    destruct (fresh_fields p p1 Hf) as (_ & _ & _ & HU1 & _ & _ & _ & Hor).
    destruct (same_fields_events p p1 Hf) as (Ha & Hc & Hr & Hl).
    apply IH in H as (k & -> & -> & Hvalid & Hrej); [|congruence | exact HS].
    exists (S k).
    assert (Hnth : forall j,
               nth j (pending (after (attempt p ++ complaint p1)%list 1 w)) None
               = nth (S j) (pending w) None).
    { intros j. cbn [after pending skipn].
      destruct (pending w); [destruct j|]; reflexivity. }
    rewrite Hnth, Hor, Hl in *.
    split; [|split; [reflexivity|split]].
    + rewrite after_after, Hr, Ha, Hc. cbn [rounds]. f_equal.
      now rewrite <- !app_assoc.
    + now rewrite <- (proj1 (inputIsValid_again _ _ _ _ Hv _)).
    + intros [|j] Hj.
      * unfold verdict. now rewrite Hv.
      * rewrite <- (verdict_again _ _ _ _ Hv), <- Hnth, <- Hor, <- Hl.
        apply Hrej. lia.
Qed.

(** X8: a call that asks returns the first answer that [inputIsValid]
    accepts: after [k] rejected answers it has read [k + 1] times, printed
    the message [k + 1] times and the error [k] times, and what is left to
    read is untouched. *)
Theorem Prompt_first_accepted rejected : forall p w good rest fuel p1,
  UseDefault p = false -> skip w = false ->
  pending w = (rejected ++ good :: rest)%list ->
  Forall (fun r => verdict p (orDefault p (lineOf p r)) = Some false) rejected ->
  inputIsValid p (orDefault p (lineOf p good)) = Returns (true, p1) ->
  Prompt (S (List.length rejected) + fuel) p w
  = Returns (orDefault p (lineOf p good), p1,
             after (rounds (List.length rejected) p ++ attempt p)%list
               (S (List.length rejected)) w).
Proof.
  induction rejected as [|r rejected IH]; intros p w good rest fuel p1 HU HS Hp Hrej Hgood.
  - cbn [List.length Nat.add]. rewrite Prompt_round by assumption.
    rewrite Hp. cbn [app hd]. now rewrite Hgood.
  - cbn [List.length Nat.add]. rewrite Prompt_round by assumption.
    rewrite Hp. cbn [app hd]. inversion Hrej as [|? ? Hr Hrest]; subst.
    unfold verdict in Hr.
    destruct (inputIsValid p (orDefault p (lineOf p r))) as [[[] p2]| |] eqn:Hv;
      try discriminate Hr.
    destruct (inputIsValid_keeps _ _ _ _ Hv) as [Hf _].
    destruct (fresh_fields p p2 Hf) as (_ & _ & _ & HU2 & _ & _ & _ & Hor).
    destruct (same_fields_events p p2 Hf) as (Ha & Hc & Hrounds & Hl).
    rewrite (IH p2 _ good rest fuel p1).
    + rewrite Hor, Hl, after_after, Hrounds, Ha, Hc. cbn [rounds].
      do 2 f_equal. now rewrite <- !app_assoc.
    + congruence.
    + exact HS.
    + cbn [after pending skipn]. now rewrite Hp.
    + eapply Forall_impl; [|exact Hrest]. intros r' Hr'. cbn beta in *.
      now rewrite Hor, Hl, (verdict_again _ _ _ _ Hv).
    + rewrite Hor, Hl. now rewrite (proj1 (inputIsValid_again _ _ _ _ Hv _)).
Qed.

(** X9: when every answer still to be read is rejected, and so is what
    stands for an empty answer, the call never returns: it asks again
    after the input has ended, for ever. *)
Theorem Prompt_never_returns fuel : forall p w,
  UseDefault p = false -> skip w = false ->
  Forall (fun r => verdict p (orDefault p (lineOf p r)) = Some false) (pending w) ->
  verdict p (orDefault p "") = Some false ->
  Prompt fuel p w = OutOfFuel.
Proof.
  induction fuel as [|fuel IH]; intros p w HU HS Hrej Hempty; [reflexivity|].
  rewrite Prompt_round by assumption.
  assert (Hhead : verdict p (orDefault p (lineOf p (hd None (pending w)))) = Some false).
  { destruct (pending w) as [|r rest]; [exact Hempty|].
    inversion Hrej; subst. assumption. }
  unfold verdict in Hhead.
  destruct (inputIsValid p _) as [[[] p2]| |] eqn:Hv; try discriminate Hhead.
  destruct (inputIsValid_keeps _ _ _ _ Hv) as [Hf _].
  destruct (fresh_fields p p2 Hf) as (_ & _ & _ & HU2 & _ & _ & _ & Hor).
  destruct (same_fields_events p p2 Hf) as (_ & _ & _ & Hl).
  apply IH.
  - congruence.
  - exact HS.
  - cbn [after pending skipn].
    assert (Htl : Forall (fun r => verdict p (orDefault p (lineOf p r)) = Some false)
                    (tl (pending w))).
    { destruct (pending w); [constructor|]. now inversion Hrej. }
    destruct (pending w); cbn [tl] in *;
      (eapply Forall_impl; [|exact Htl]); intros r' Hr'; cbn beta in *;
      now rewrite Hor, Hl, (verdict_again _ _ _ _ Hv).
  - now rewrite Hor, (verdict_again _ _ _ _ Hv).
Qed.

(** The pattern built from choices of ASCII text compiles, so validation
    gives a verdict. *)
Lemma inputIsValid_returns p input :
  forallb ascii_text (Choices p) = true ->
  exists valid p', inputIsValid p input = Returns (valid, p').
Proof.
  intros Ha. unfold inputIsValid.
  assert (exists re p1, regexp p = Returns (re, p1)) as (re & p1 & ->).
  { unfold regexp. destruct (Regexp p); [eauto|]. destruct (reg p); [eauto|].
    destruct (Choices p) as [|first others]; [eauto|]. destruct (IsMenu p); [eauto|].
    rewrite RegexpFacts.choicesReg_compiled by exact Ha. cbn [bind]. eauto. }
  cbn [bind].
  destruct (negb (IsMenu p1) || negb (regexp.MatchString re input)); [eauto|].
  destruct (strconv.Atoi input) as [it|]; [|eauto].
  destruct (_ <? it)%Z; eauto.
Qed.

Lemma Prompt_no_panic fuel : forall p w,
  forallb ascii_text (Choices p) = true -> Prompt fuel p w <> Panics.
Proof.
  induction fuel as [|fuel IH]; intros p w Ha; [discriminate|].
  destruct (UseDefault p || skip w) eqn:Hauto.
  - rewrite Prompt_default by exact Hauto. discriminate.
  - apply orb_false_iff in Hauto as [HU HS]. rewrite Prompt_round by assumption.
    destruct (inputIsValid_returns p (orDefault p (lineOf p (hd None (pending w)))) Ha)
      as (valid & p' & Hv).
    rewrite Hv. destruct valid; [discriminate|].
    apply IH. apply inputIsValid_keeps in Hv as [Hf _].
    destruct (fresh_fields p p' Hf) as (_ & -> & _). exact Ha.
Qed.

(** ** Validation in a menu, whatever the rule *)

(** X3: in a menu, under any rule, an accepted answer is one that [Atoi]
    reads, as an integer that is at most [len(Choices) + 1]. *)
Theorem menu_answer_parses p input p' :
  IsMenu p = true ->
  inputIsValid p input = Returns (true, p') ->
  exists index,
    strconv.Atoi input = Some index
    /\ (index <= Z.of_nat (List.length (Choices p)) + 1)%Z.
Proof.
  intros HM H. unfold inputIsValid in H.
  destruct (regexp p) as [[re p1]| |] eqn:Hre; cbn [bind] in H; try discriminate H.
  destruct (regexp_keeps _ _ _ Hre) as [Hf _].
  destruct (fresh_fields p p1 Hf) as (HM1 & HC1 & _).
  rewrite HM1, HM, HC1 in H. cbn [negb orb] in H.
  destruct (regexp.MatchString re input); cbn [negb] in H; [|discriminate H].
  destruct (strconv.Atoi input) as [index|]; [|discriminate H].
  exists index. split; [reflexivity|].
  destruct (_ <? index)%Z eqn:Hlt; [discriminate H|]. now apply Z.ltb_ge in Hlt.
Qed.

Lemma menuVerdict_menuAccepts p input : menuAccepts p input = menuVerdict p input.
Proof.
  unfold menuAccepts, menuVerdict.
  destruct (strconv.Atoi input) as [index|] eqn:HA.
  - rewrite (numReg_Atoi input index HA). apply andb_comm.
  - apply andb_false_r.
Qed.

Lemma zeroText_Itoa z :
  (strconv.minInt <= z <= strconv.maxInt)%Z ->
  zeroText (strconv.Itoa z) = (z =? 0)%Z.
Proof.
  intros Hz. pose proof (Atoi_Itoa z Hz) as HA.
  destruct (zeroText (strconv.Itoa z)) eqn:E.
  - unfold zeroText in E. symmetry. apply Z.eqb_eq.
    apply orb_true_iff in E as [E|E]; [apply orb_true_iff in E as [E|E]|];
      apply String.eqb_eq in E; rewrite E in HA; cbv in HA; congruence.
  - destruct z; [discriminate E | reflexivity | reflexivity].
Qed.

Lemma menuVerdict_Itoa p z :
  (strconv.minInt <= z <= strconv.maxInt)%Z ->
  menuVerdict p (strconv.Itoa z)
  = (z <=? Z.of_nat (List.length (Choices p)) + 1)%Z && negb (z =? 0)%Z.
Proof.
  intros Hz. unfold menuVerdict. now rewrite (Atoi_Itoa z Hz), (zeroText_Itoa z Hz).
Qed.

(** ** Every choice is accepted *)

Lemma equalsChoice_refl ignoreCase text : equalsChoice ignoreCase text text = true.
Proof. unfold equalsChoice. destruct ignoreCase; apply String.eqb_refl. Qed.

Lemma inputIsValid_choices p input :
  IsMenu p = false -> Regexp p = None -> Choices p <> [] -> cacheOk p ->
  forallb ascii_text (Choices p) = true ->
  inputIsValid p input
  = Returns (existsb (equalsChoice (IgnoreCase p) input) (Choices p),
             setReg (choicesReg (IgnoreCase p) (Choices p)) p).
Proof.
  intros HM HR HC Hc Ha. unfold inputIsValid. rewrite regexp_choices by assumption.
  cbn [bind setReg IsMenu]. rewrite HM. cbn [negb orb].
  destruct (Choices p) as [|first others]; [contradiction|].
  now rewrite RegexpFacts.choicesReg_matches.
Qed.

(** ** The line that is read *)

Lemma TrimRight_spec cutset s :
  exists suffix,
    s = strings.TrimRight s cutset ++ suffix
    /\ allIn cutset suffix = true
    /\ endsIn cutset (strings.TrimRight s cutset) = false.
Proof.
  induction s as [|c s (suffix & Hs & Hall & Hend)]; [exists ""; auto|].
  cbn [strings.TrimRight].
  destruct (strings.TrimRight s cutset) as [|d t] eqn:E.
  - cbn [append] in Hs. subst suffix.
    destruct (strings.contains cutset c) eqn:Hc.
    + exists (String c s). cbn [append allIn endsIn]. now rewrite Hc, Hall.
    + exists s. cbn [append endsIn]. now rewrite Hc.
  - exists suffix. split; [cbn [append] in *; now rewrite <- Hs|].
    split; [exact Hall | exact Hend].
Qed.

(** ** The message *)

Lemma menuLines_split choices : forall i k choice,
  nth_error choices k = Some choice ->
  menuLines i choices
  = menuLines i (firstn k choices)
    ++ menuLine (i + Z.of_nat k + 1) choice
    ++ menuLines (i + Z.of_nat k + 1) (skipn (S k) choices).
Proof.
  induction choices as [|c choices IH]; intros i k choice H.
  - destruct k; discriminate H.
  - destruct k as [|k].
    + injection H as ->. cbn [firstn skipn menuLines append Z.of_nat].
      unfold menuLine. rewrite Z.add_0_r, !append_assoc. reflexivity.
    + cbn [nth_error] in H. cbn [firstn skipn menuLines].
      rewrite (IH (i + 1)%Z k choice H), !append_assoc.
      replace (i + 1 + Z.of_nat k + 1)%Z with (i + Z.of_nat (S k) + 1)%Z by lia.
      reflexivity.
Qed.

(** ** The cached rule *)

(** X1: once [inputIsValid] has returned, the receiver it leaves gives
    the same verdict on every input as the receiver it was called on, and
    is left unchanged by further calls. *)
Theorem validation_repeats p input valid p' :
  inputIsValid p input = Returns (valid, p') ->
  forall other,
    inputIsValid p' other = inputIsValid p other
    /\ exists verdict, inputIsValid p' other = Returns (verdict, p').
Proof. apply inputIsValid_again. Qed.

(** After ["Y"] at a y/n prompt: the same verdicts from the cached rule. *)
Lemma validation_repeats_yesNo :
  inputIsValid yesNo "Y" = Returns (false, yesNoRule)
  /\ inputIsValid yesNoRule "n" = inputIsValid yesNo "n"
  /\ inputIsValid yesNoRule "n" = Returns (true, yesNoRule).
Proof.
  split; [reflexivity|].
  split.
  - exact (proj1 (validation_repeats yesNo "Y" false yesNoRule eq_refl "n")).
  - reflexivity.
Defined.

(** X2: [MustCompile] does not panic on the pattern built from the
    choices, so a call of [Prompt] returns or goes on asking.  The choices
    are ASCII text, where the regexp model is exact. *)
Theorem Prompt_never_panics p :
  forallb ascii_text (Choices p) = true ->
  forall fuel w,
    Prompt fuel p w = OutOfFuel
    \/ exists a p' w', Prompt fuel p w = Returns (a, p', w').
Proof.
  intros Ha fuel w. pose proof (Prompt_no_panic fuel p w Ha) as H.
  destruct (Prompt fuel p w) as [[[a p'] w']| |]; [eauto | contradiction | auto].
Qed.

(** Choices made of metacharacters. *)
Lemma Prompt_never_panics_symbols :
  forallb ascii_text (Choices symbols) = true
  /\ (Prompt 1 symbols (terminal [Some "[^"]) = OutOfFuel
      \/ exists a p' w', Prompt 1 symbols (terminal [Some "[^"]) = Returns (a, p', w'))
  /\ verdict symbols "[^" = Some true.
Proof.
  split; [reflexivity|]. split; [|reflexivity].
  exact (Prompt_never_panics symbols eq_refl 1 (terminal [Some "[^"])).
Defined.

(** ** Answers in a menu *)

(** A menu of one choice with the pattern [.*]: ["-7"] is accepted. *)
Lemma menu_answer_parses_negative :
  IsMenu (withRegexp allReg (menu ["a"] 0)) = true
  /\ inputIsValid (withRegexp allReg (menu ["a"] 0)) "-7"
     = Returns (true, withRegexp allReg (menu ["a"] 0))
  /\ exists index, strconv.Atoi "-7" = Some index /\ (index <= 2)%Z.
Proof.
  split; [reflexivity|]. split; [reflexivity|].
  exact (menu_answer_parses (withRegexp allReg (menu ["a"] 0)) "-7"
           (withRegexp allReg (menu ["a"] 0)) eq_refl eq_refl).
Defined.

(** X4: in a menu that uses the numeric rule, an input is accepted exactly
    when [Atoi] reads it as an integer that is at most [len(Choices) + 1]
    and it is not ["0"], ["+0"] or ["-0"]. *)
Theorem menu_numeric_verdict p input :
  IsMenu p = true -> Regexp p = None -> Choices p <> [] -> cacheOk p ->
  inputIsValid p input = Returns (menuVerdict p input, setReg numReg p).
Proof.
  intros HM HR HC Hc. rewrite inputIsValid_menu by assumption.
  now rewrite menuVerdict_menuAccepts.
Qed.

(** Three choices: a negative number and a padded one pass, zero with a
    sign and a number past the bound do not. *)
Lemma menu_numeric_verdict_examples :
  inputIsValid abcMenu "-12" = Returns (true, abcRule)
  /\ inputIsValid abcMenu "004" = Returns (true, abcRule)
  /\ inputIsValid abcMenu "+0" = Returns (false, abcRule)
  /\ inputIsValid abcMenu "5" = Returns (false, abcRule)
  /\ inputIsValid abcMenu "2." = Returns (false, abcRule).
Proof.
  assert (H : forall input,
             inputIsValid abcMenu input = Returns (menuVerdict abcMenu input, abcRule)).
  { intros input. apply menu_numeric_verdict;
      [reflexivity | reflexivity | discriminate | exact I]. }
  repeat apply conj; apply H.
Defined.

(** X5: in a menu with no explicit pattern, the decimal form of every
    number from 1 to [len(Choices) + 1] is accepted: the numbers the menu
    shows, and the one after them. *)
Theorem menu_numbers_accepted p index :
  IsMenu p = true -> Regexp p = None -> cacheOk p ->
  (Z.of_nat (List.length (Choices p)) < strconv.maxInt)%Z ->
  (1 <= index <= Z.of_nat (List.length (Choices p)) + 1)%Z ->
  exists p', inputIsValid p (strconv.Itoa index) = Returns (true, p').
Proof.
  intros HM HR Hc Hlen Hi.
  assert (Hint : (strconv.minInt <= index <= strconv.maxInt)%Z).
  { unfold strconv.minInt, strconv.maxInt in *. lia. }
  destruct (Choices p) as [|first others] eqn:HC.
  - exists (setReg allReg p). unfold inputIsValid.
    rewrite regexp_noChoices by assumption. cbn [bind setReg IsMenu Choices].
    rewrite HM, HC, RegexpFacts.allReg_matches, (Atoi_Itoa index Hint).
    cbn [negb orb]. cbn [List.length] in *.
    destruct (_ <? index)%Z eqn:E; [apply Z.ltb_lt in E; lia | reflexivity].
  - exists (setReg numReg p).
    rewrite inputIsValid_menu by (try assumption; rewrite HC; discriminate).
    rewrite menuVerdict_menuAccepts, (menuVerdict_Itoa p index Hint), HC.
    f_equal. f_equal. apply andb_true_iff. split.
    + apply Z.leb_le. lia.
    + apply negb_true_iff, Z.eqb_neq. lia.
Qed.

(** Three choices: 3 is accepted, and so is 4. *)
Lemma menu_numbers_accepted_examples :
  inputIsValid abcMenu "3" = Returns (true, abcRule)
  /\ inputIsValid abcMenu "4" = Returns (true, abcRule)
  /\ (exists p', inputIsValid abcMenu (strconv.Itoa 4) = Returns (true, p')).
Proof.
  split; [reflexivity|]. split; [reflexivity|].
  apply (menu_numbers_accepted abcMenu 4); [reflexivity | reflexivity | exact I | | ];
    cbn; unfold strconv.maxInt; lia.
Defined.

(** X6: in a menu that uses the numeric rule, an empty line gives the
    decimal form of [DefaultMenuItem] when that number is not zero and at
    most [len(Choices) + 1], a negative one included; otherwise the prompt
    starts again. *)
Theorem menu_default_item p w fuel :
  IsMenu p = true -> Regexp p = None -> Choices p <> [] -> cacheOk p ->
  (strconv.minInt <= DefaultMenuItem p <= strconv.maxInt)%Z ->
  UseDefault p = false -> skip w = false -> typed p w = "" ->
  Prompt (S fuel) p w =
  if (DefaultMenuItem p <=? Z.of_nat (List.length (Choices p)) + 1)%Z
     && negb (DefaultMenuItem p =? 0)%Z
  then Returns (strconv.Itoa (DefaultMenuItem p), setReg numReg p, asked p w)
  else Prompt fuel (setReg numReg p) (afterError (setReg numReg p) (asked p w)).
Proof.
  intros HM HR HC Hc Hint HU HS Ht.
  rewrite Prompt_asks by assumption. unfold checked, orDefault.
  rewrite Ht, HM. cbn [String.eqb].
  rewrite inputIsValid_menu by assumption.
  rewrite menuVerdict_menuAccepts, (menuVerdict_Itoa p _ Hint). cbn [bind].
  now destruct (_ && _).
Qed.

(** Three choices and an empty line: the default -2 is returned as
    ["-2"]; with the default 9 nothing is returned. *)
Lemma menu_default_item_examples :
  Prompt 1 (menu ["a"; "b"; "c"] (-2)) (terminal [Some ""])
  = Returns ("-2", setReg numReg (menu ["a"; "b"; "c"] (-2)),
             asked (menu ["a"; "b"; "c"] (-2)) (terminal [Some ""]))
  /\ Prompt 1 (menu ["a"; "b"; "c"] 9) (terminal [Some ""]) = OutOfFuel.
Proof.
  split.
  - apply (menu_default_item (menu ["a"; "b"; "c"] (-2)) (terminal [Some ""]) 0);
      first [reflexivity | discriminate | exact I | split; discriminate].
  - apply (menu_default_item (menu ["a"; "b"; "c"] 9) (terminal [Some ""]) 0);
      first [reflexivity | discriminate | exact I | split; discriminate].
Defined.

(** ** Answers outside a menu *)

(** X7: with choices and no explicit pattern, outside menu mode, each of
    the choices is accepted as it is written, whatever bytes it is made
    of.  The text is ASCII, where the regexp model is exact. *)
Theorem every_choice_accepted p choice :
  IsMenu p = false -> Regexp p = None -> cacheOk p ->
  forallb ascii_text (Choices p) = true ->
  In choice (Choices p) ->
  inputIsValid p choice
  = Returns (true, setReg (choicesReg (IgnoreCase p) (Choices p)) p).
Proof.
  intros HM HR Hc Ha Hin.
  rewrite inputIsValid_choices; try assumption.
  - f_equal. f_equal. apply existsb_exists. exists choice.
    split; [exact Hin | apply equalsChoice_refl].
  - intros E. rewrite E in Hin. exact Hin.
Qed.

Lemma every_choice_accepted_symbols :
  In "[^" (Choices symbols)
  /\ inputIsValid symbols "[^"
     = Returns (true, setReg (choicesReg false (Choices symbols)) symbols)
  /\ inputIsValid symbols "abc"
     = Returns (false, setReg (choicesReg false (Choices symbols)) symbols).
Proof.
  split; [cbn; auto|]. split; [|reflexivity].
  apply (every_choice_accepted symbols "[^"); [reflexivity | reflexivity | exact I
                                              | reflexivity | cbn; auto].
Defined.

(** ** The retry loop *)

(** A y/n prompt: a wrong answer, a failed read, then ["n"]. *)
Lemma Prompt_first_accepted_third :
  Prompt 3 yesNo (terminal [Some "maybe"; None; Some "n"; Some "y"])
  = Returns ("n", yesNoRule,
             {| GO_PROMPTER_USE_DEFAULT := ""; stdinIsTerminal := true;
                stdoutIsTerminal := true; pending := [Some "y"];
                trace := [Stdout "Continue (y/n): "; ScanLine; Stdout ("# Enter `y` or `n`" ++ nl);
                          Stdout "Continue (y/n): "; ScanLine; Stdout ("# Enter `y` or `n`" ++ nl);
                          Stdout "Continue (y/n): "; ScanLine] |}).
Proof.
  apply (Prompt_first_accepted [Some "maybe"; None] yesNo
           (terminal [Some "maybe"; None; Some "n"; Some "y"]) (Some "n") [Some "y"] 0
           yesNoRule);
    try reflexivity.
  repeat constructor.
Defined.

(** A y/n prompt with no default, one wrong answer and the end of input. *)
Lemma Prompt_never_returns_yesNo :
  verdict yesNo (orDefault yesNo "") = Some false
  /\ Prompt 50 yesNo (terminal [Some "maybe"]) = OutOfFuel.
Proof.
  split; [reflexivity|].
  apply (Prompt_never_returns 50 yesNo (terminal [Some "maybe"])); try reflexivity.
  repeat constructor.
Defined.

(** X10: whatever a call that asks returns has passed [inputIsValid]: it
    is the answer of one of the reads, an empty one replaced, and every
    answer read before it was rejected. *)
Theorem Prompt_answer_valid fuel p w a p' w' :
  UseDefault p = false -> skip w = false ->
  Prompt fuel p w = Returns (a, p', w') ->
  inputIsValid p a = Returns (true, p')
  /\ exists k,
       a = orDefault p (lineOf p (nth k (pending w) None))
       /\ forall j, j < k ->
            verdict p (orDefault p (lineOf p (nth j (pending w) None))) = Some false.
Proof.
  intros HU HS H.
  destruct (Prompt_returns fuel p w a p' w' HU HS H) as (k & _ & Ha & Hv & Hrej).
  split; [exact Hv | eauto].
Qed.

Lemma Prompt_answer_valid_menu :
  Prompt 2 abcMenu (terminal [Some "9"; Some "2"])
  = Returns ("2", abcRule, after (rounds 1 abcMenu ++ attempt abcMenu)%list 2
                             (terminal [Some "9"; Some "2"]))
  /\ inputIsValid abcMenu "2" = Returns (true, abcRule).
Proof.
  split; [reflexivity|].
  exact (proj1 (Prompt_answer_valid 2 abcMenu (terminal [Some "9"; Some "2"]) "2" abcRule
                  (after (rounds 1 abcMenu ++ attempt abcMenu)%list 2
                     (terminal [Some "9"; Some "2"]))
                  eq_refl eq_refl eq_refl)).
Defined.

(** X11: all that a returning call has done: on the auto-accept path it
    has printed the message; otherwise, for some [k], it has gone [k]
    times through message, read and error (and, in a menu, the clear
    sequence), then once through message and read, taking [k + 1] reads
    from the front of the input.  The environment is as before. *)
Theorem Prompt_effects fuel p w a p' w' :
  Prompt fuel p w = Returns (a, p', w') ->
  exists k,
    w' = if UseDefault p || skip w then after [Stdout (msg p)] 0 w
         else after (rounds k p ++ attempt p)%list (S k) w.
Proof.
  intros H. destruct (UseDefault p || skip w) eqn:Hauto.
  - destruct fuel as [|fuel]; [discriminate H|].
    rewrite Prompt_default in H by exact Hauto. injection H as _ _ <-.
    exists 0. reflexivity.
  - apply orb_false_iff in Hauto as [HU HS].
    destruct (Prompt_returns fuel p w a p' w' HU HS H) as (k & Hw & _).
    eauto.
Qed.

Lemma Prompt_effects_menu :
  Prompt 2 abcMenu (terminal [Some "9"; Some "2"; Some "1"])
  = Returns ("2", abcRule,
             {| GO_PROMPTER_USE_DEFAULT := ""; stdinIsTerminal := true;
                stdoutIsTerminal := true; pending := [Some "1"];
                trace := [Stdout (msg abcMenu); ScanLine; Stdout nl; Stderr clearScreen;
                          Stdout (msg abcMenu); ScanLine] |})
  /\ exists k,
       {| GO_PROMPTER_USE_DEFAULT := ""; stdinIsTerminal := true;
          stdoutIsTerminal := true; pending := [Some "1"];
          trace := [Stdout (msg abcMenu); ScanLine; Stdout nl; Stderr clearScreen;
                    Stdout (msg abcMenu); ScanLine] |}
       = after (rounds k abcMenu ++ attempt abcMenu)%list (S k)
           (terminal [Some "9"; Some "2"; Some "1"]).
Proof.
  split; [reflexivity|].
  exact (Prompt_effects 2 abcMenu (terminal [Some "9"; Some "2"; Some "1"]) "2" abcRule
           _ eq_refl).
Defined.

(** ** The line and the message *)

(** X12: with echo, the answer is the scanned text without the carriage
    returns and line feeds at its end: they are all that is dropped, and
    none is left at the end. *)
Theorem typed_line_trimmed p w text rest :
  NoEcho p = false -> pending w = Some text :: rest ->
  exists suffix,
    text = typed p w ++ suffix
    /\ allIn crlf suffix = true
    /\ endsIn crlf (typed p w) = false.
Proof.
  intros HN Hp. rewrite typed_lineOf, Hp. cbn [hd lineOf]. rewrite HN.
  apply TrimRight_spec.
Qed.

Lemma typed_line_trimmed_example :
  typed yesNo (terminal [Some ("y" ++ crlf ++ crlf)]) = "y"
  /\ exists suffix,
       "y" ++ crlf ++ crlf = typed yesNo (terminal [Some ("y" ++ crlf ++ crlf)]) ++ suffix
       /\ allIn crlf suffix = true
       /\ endsIn crlf (typed yesNo (terminal [Some ("y" ++ crlf ++ crlf)])) = false.
Proof.
  split; [reflexivity|].
  exact (typed_line_trimmed yesNo (terminal [Some ("y" ++ crlf ++ crlf)])
           ("y" ++ crlf ++ crlf) [] eq_refl eq_refl).
Defined.

(** X13: the menu message shows each choice on a line of its own, after
    the lines of the choices before it, with its position counted from 1. *)
Theorem msg_numbers_choice p k choice :
  IsMenu p = true -> nth_error (Choices p) k = Some choice ->
  exists rest,
    msg p = Message p ++ nl ++ "---" ++ nl
            ++ menuLines 0 (firstn k (Choices p))
            ++ menuLine (Z.of_nat k + 1) choice ++ rest.
Proof.
  intros HM Hk. unfold msg. rewrite HM.
  rewrite (menuLines_split (Choices p) 0 k choice Hk). cbn [Z.add].
  destruct (MenuPrompt p =? ""); destruct (DefaultMenuItem p =? 0)%Z;
    eexists; rewrite !append_assoc; reflexivity.
Qed.

Lemma msg_numbers_choice_example :
  nth_error (Choices abcMenu) 1 = Some "b"
  /\ msg abcMenu = "Pick one" ++ nl ++ "---" ++ nl ++ " [1] a" ++ nl ++ " [2] b" ++ nl
                   ++ " [3] c" ++ nl ++ "Choose [2]: "
  /\ exists rest,
       msg abcMenu = Message abcMenu ++ nl ++ "---" ++ nl
                     ++ menuLines 0 (firstn 1 (Choices abcMenu))
                     ++ menuLine (Z.of_nat 1 + 1) "b" ++ rest.
Proof.
  split; [reflexivity|]. split; [reflexivity|].
  exact (msg_numbers_choice abcMenu 1 "b" eq_refl eq_refl).
Defined.
